(** * BIO-OPT: the Pareto stage (BIO-OPT-MOO) and the LCA object (BIO-OPT-LCA)

    A shallow embedding of the two notebooks of the repository.

    - [Module Pareto] follows the cells of BIO-OPT-MOO.ipynb: the feasibility
      filter, [is_dominated], the [pareto_front] comprehension,
      [optimal_indices], the reported table and the three representative
      selectors.
    - [Module LCA] follows class [biorefinery_LCA] of BIO-OPT-LCA: the
      attributes of the object, [calc_lca] and [analyze_lca], in a small
      state-and-exception monad.

    Numbers.  The notebooks work on numeric columns read from a spreadsheet.
    The dominance filter and the two extreme selectors only compare scores,
    which is exact, so the embedding takes exact integers ([Z]) for the
    scores.  The distance to the ideal point is the one place where rounding
    decides a result: [euclidean] and [knee_index] are the distance and the
    knee in exact arithmetic, [scipy_euclidean] and [knee_index_float64] are
    what the cell computes in binary64 (Rocq's primitive floats). *)

From Stdlib Require Import ZArith List Bool Lia Arith.
From Stdlib Require Floats.
From Stdlib Require Import Reals Lra.
From stdpp Require gmap strings.
Import ListNotations.

#[local] Open Scope Z_scope.

(** ** Python list helpers *)

Module PyList.

Section Generic.
Context {A : Type}.

(** [enumerate(l)] *)
Definition enumerate (l : list A) : list (nat * A) :=
  combine (seq 0 (length l)) l.

(** [l.index(x)]: the first position holding a value equal to [x];
    [None] stands for the ValueError of an absent value. *)
Fixpoint index (eqb : A -> A -> bool) (x : A) (l : list A) : option nat :=
  match l with
  | [] => None
  | y :: l' =>
      if eqb y x then Some 0%nat
      else match index eqb x l' with
           | Some i => Some (S i)
           | None => None
           end
  end.

(** A list comprehension whose body may raise: the first failure aborts
    the whole comprehension. *)
Fixpoint comprehension {B : Type} (f : A -> option B) (l : list A)
  : option (list B) :=
  match l with
  | [] => Some []
  | x :: l' =>
      match f x with
      | None => None
      | Some y =>
          match comprehension f l' with
          | None => None
          | Some ys => Some (y :: ys)
          end
      end
  end.

(** [np.argmin] / [np.argmax] scan: [better x best] says that [x] strictly
    improves on the best value seen so far, so the first occurrence of the
    optimum is the one returned. *)
Fixpoint arg_scan (better : A -> A -> bool)
         (best_i : nat) (best : A) (i : nat) (l : list A) : nat :=
  match l with
  | [] => best_i
  | x :: l' =>
      if better x best then arg_scan better i x (S i) l'
      else arg_scan better best_i best (S i) l'
  end.

(** [None] stands for the ValueError numpy raises on an empty sequence. *)
Definition arg_best (better : A -> A -> bool) (l : list A) : option nat :=
  match l with
  | [] => None
  | x :: l' => Some (arg_scan better 0%nat x 1%nat l')
  end.

(** What the scan knows after reading [pre]: [b], at position [k], is not
    improved on by any element, and improves on every element before it. *)
Definition best_so_far (better : A -> A -> bool)
           (pre : list A) (k : nat) (b : A) : Prop :=
  nth_error pre k = Some b /\
  (forall i y, nth_error pre i = Some y -> better y b = false) /\
  (forall i y, nth_error pre i = Some y -> (i < k)%nat -> better b y = true).

(** The builtins [min] and [max]: the first optimal element,
    ValueError on an empty sequence. *)
Definition best_of (better : A -> A -> bool) (l : list A) : option A :=
  match l with
  | [] => None
  | x :: l' =>
      Some (fold_left (fun best y => if better y best then y else best) l' x)
  end.
End Generic.

Definition argmin (l : list Z) : option nat := arg_best Z.ltb l.
Definition argmax (l : list Z) : option nat := arg_best Z.gtb l.
Definition py_min (l : list Z) : option Z := best_of Z.ltb l.
Definition py_max (l : list Z) : option Z := best_of Z.gtb l.

End PyList.

(** ** The Pareto stage *)

Module Pareto.
Import PyList.

(** A point of [filtered_points]: the tuple [(gwp, npv)]. *)
Definition Point : Type := Z * Z.

(** [other != point] on tuples compares the components. *)
Definition point_eqb (a b : Point) : bool :=
  (fst a =? fst b) && (snd a =? snd b).

(** The test inside the loop of [is_dominated]. *)
Definition dominates (other point : Point) : bool :=
  ((fst other <=? fst point) && (snd other >=? snd point))
  && negb (point_eqb other point).

(** [is_dominated(point, others)]: the loop returns at the first dominating
    element. *)
Fixpoint is_dominated (point : Point) (others : list Point) : bool :=
  match others with
  | [] => false
  | other :: rest =>
      if dominates other point then true else is_dominated point rest
  end.

(** [[point for point in filtered_points
      if not is_dominated(point, filtered_points)]] *)
Definition pareto_front (filtered_points : list Point) : list Point :=
  filter (fun point => negb (is_dominated point filtered_points))
         filtered_points.

(** The same comprehension with every point tagged by its position in the
    input, which is what identifies a scenario. *)
Definition kept (filtered_points : list Point) : list (nat * Point) :=
  filter (fun ip => negb (is_dominated (snd ip) filtered_points))
         (enumerate filtered_points).

Definition front_positions (filtered_points : list Point) : list nat :=
  map fst (kept filtered_points).

(** One row of the spreadsheet: the three allocation percentages
    (columns 0, 1, 2), the GWP (column 15) and the NPV (column 19). *)
Record Row : Type := mkRow {
  gwp : Z;
  npv : Z;
  bioethanol : Z;
  vanillin : Z;
  furfural : Z
}.

(** [filtered_data]: the rows with [npv > 0], in order. *)
Definition filtered_data (df : list Row) : list Row :=
  filter (fun r => npv r >? 0) df.

Definition GWP_filtered (df : list Row) : list Z := map gwp (filtered_data df).
Definition NPV_filtered (df : list Row) : list Z := map npv (filtered_data df).
Definition bioethanol_filtered (df : list Row) : list Z :=
  map bioethanol (filtered_data df).
Definition vanillin_filtered (df : list Row) : list Z :=
  map vanillin (filtered_data df).
Definition furfural_filtered (df : list Row) : list Z :=
  map furfural (filtered_data df).

(** [list(zip(GWP_filtered, NPV_filtered))] *)
Definition filtered_points (df : list Row) : list Point :=
  combine (GWP_filtered df) (NPV_filtered df).

(** [[filtered_points.index(ind) for ind in pareto_front]] *)
Definition optimal_indices (points front : list Point) : option (list nat) :=
  comprehension (fun ind => index point_eqb ind points) front.

Definition pareto_GWP (front : list Point) : list Z := map fst front.
Definition pareto_NPV (front : list Point) : list Z := map snd front.

(** [[column[idx] for idx in optimal_indices]]: IndexError is [None]. *)
Definition pick (column : list Z) (indices : list nat) : option (list Z) :=
  comprehension (fun idx => nth_error column idx) indices.

(** [pd.DataFrame({...})] from five columns: one row per position. *)
Fixpoint data_frame (g n b v f : list Z) : list Row :=
  match g, n, b, v, f with
  | g0 :: g', n0 :: n', b0 :: b', v0 :: v', f0 :: f' =>
      mkRow g0 n0 b0 v0 f0 :: data_frame g' n' b' v' f'
  | _, _, _, _, _ => []
  end.

(** Cells 8, 9 and 11 run on a table. *)
Definition pareto_df (df : list Row) : option (list Row) :=
  let points := filtered_points df in
  let front := pareto_front points in
  match optimal_indices points front with
  | None => None
  | Some idxs =>
      match pick (bioethanol_filtered df) idxs,
            pick (vanillin_filtered df) idxs,
            pick (furfural_filtered df) idxs with
      | Some pb, Some pv, Some pf =>
          Some (data_frame (pareto_GWP front) (pareto_NPV front) pb pv pf)
      | _, _, _ => None
      end
  end.

(** [np.argmin(pareto_GWP)] and [np.argmax(pareto_NPV)] *)
Definition min_gwp_index (front : list Point) : option nat :=
  argmin (pareto_GWP front).
Definition max_npv_index (front : list Point) : option nat :=
  argmax (pareto_NPV front).

(** A Euclidean distance [sqrt s] in exact arithmetic, kept as its radicand
    [s]. *)
Record Distance : Type := mkDistance { radicand : Z }.

Definition distance_ltb (a b : Distance) : bool := radicand a <? radicand b.

(** The real number a [Distance] stands for. *)
Definition distance_value (d : Distance) : R := sqrt (IZR (radicand d)).

(** The Euclidean distance between two pairs, exactly (the value
    [scipy.spatial.distance.euclidean(u, v)] rounds; see [scipy_euclidean]). *)
Definition euclidean (u v : Point) : Distance :=
  mkDistance ((fst u - fst v) * (fst u - fst v)
              + (snd u - snd v) * (snd u - snd v)).

(** [(min(pareto_GWP), max(pareto_NPV))] *)
Definition ideal_point (front : list Point) : option Point :=
  match py_min (pareto_GWP front), py_max (pareto_NPV front) with
  | Some ideal_gwp, Some ideal_npv => Some (ideal_gwp, ideal_npv)
  | _, _ => None
  end.

(** [[euclidean((gwp, npv), (ideal_gwp, ideal_npv)) for gwp, npv in zip(...)]] *)
Definition distances (front : list Point) (ideal : Point) : list Distance :=
  map (fun p => euclidean p ideal) (combine (pareto_GWP front) (pareto_NPV front)).

(** [np.argmin(distances)], the distances being compared exactly. *)
Definition knee_index (front : list Point) : option nat :=
  match ideal_point front with
  | None => None
  | Some ideal => arg_best distance_ltb (distances front ideal)
  end.

(** *** The knee in binary64

    What the last cell computes.  [euclidean] of scipy turns the two tuples
    into arrays of the columns' type, subtracts them there, converts the
    difference [d] to float64 if it is not, and returns
    [sqrt(numpy.dot(d, d))].  [np.argmin] then compares the float64 values. *)

(** The type of the two columns: pandas reads a column of whole numbers as
    int64 and any other numeric column as float64. *)
Inductive Dtype : Type := Float64 | Int64.

(** The float64 nearest to an integer (ties to even; infinite beyond the
    range). *)
Definition float_of_Z (z : Z) : PrimFloat.float :=
  FloatOps.SF2Prim
    (SpecFloat.binary_normalize FloatOps.prec FloatOps.emax z 0 false).

(** int64 arithmetic wraps around. *)
Definition wrap_int64 (z : Z) : Z := (z + 2 ^ 63) mod 2 ^ 64 - 2 ^ 63.

(** One component of [u - v], as a float64. *)
Definition difference (dtype : Dtype) (x y : Z) : PrimFloat.float :=
  match dtype with
  | Float64 => PrimFloat.sub (float_of_Z x) (float_of_Z y)
  | Int64 => float_of_Z (wrap_int64 (x - y))
  end.

(** [numpy.dot(d, d)] on the two components of [d] is the routine of the
    BLAS library numpy is linked with: the sum of the two squares, rounded
    the way that routine rounds.  The notebook does not fix it, so it is an
    argument of what follows. *)
Definition Dot : Type := PrimFloat.float -> PrimFloat.float -> PrimFloat.float.

(** A routine that rounds the two squares and then their sum. *)
Definition rounded_dot : Dot :=
  fun dx dy => PrimFloat.add (PrimFloat.mul dx dx) (PrimFloat.mul dy dy).

(** [y * y + acc] rounded once (a fused multiply-add), on the
    specification of float64: the sum of the exact square and [acc] is
    aligned and rounded as a sum is. *)
Definition square_add (y acc : SpecFloat.spec_float) : SpecFloat.spec_float :=
  match y, acc with
  | SpecFloat.S754_finite _ my ey, SpecFloat.S754_finite _ _ _ =>
      SpecFloat.SFadd FloatOps.prec FloatOps.emax
        (SpecFloat.S754_finite false (Pos.mul my my) (Z.add ey ey)) acc
  | _, _ =>
      SpecFloat.SFadd FloatOps.prec FloatOps.emax
        (SpecFloat.SFmul FloatOps.prec FloatOps.emax y y) acc
  end.

(** A routine whose accumulation loop [dot += d[i] * d[i]] is compiled to
    fused multiply-adds. *)
Definition fused_dot : Dot :=
  fun dx dy =>
    FloatOps.SF2Prim
      (square_add (FloatOps.Prim2SF dy)
                  (FloatOps.Prim2SF (PrimFloat.mul dx dx))).

(** [scipy.spatial.distance.euclidean(u, v)] on pairs. *)
Definition scipy_euclidean (dot : Dot) (dtype : Dtype) (u v : Point)
  : PrimFloat.float :=
  let dx := difference dtype (fst u) (fst v) in
  let dy := difference dtype (snd u) (snd v) in
  PrimFloat.sqrt (dot dx dy).

(** The test of [np.argmin] on float64: the scan moves to [x] when
    [not (x >= best)], and stops moving once the best value is a NaN. *)
Definition np_less (x best : PrimFloat.float) : bool :=
  negb (PrimFloat.is_nan best) && negb (PrimFloat.leb best x).

(** [[euclidean((gwp, npv), (ideal_gwp, ideal_npv)) for gwp, npv in zip(...)]] *)
Definition computed_distances (dot : Dot) (dtype : Dtype) (front : list Point)
           (ideal : Point) : list PrimFloat.float :=
  map (fun p => scipy_euclidean dot dtype p ideal)
      (combine (pareto_GWP front) (pareto_NPV front)).

(** [np.argmin(distances)] *)
Definition knee_index_float64 (dot : Dot) (dtype : Dtype) (front : list Point)
  : option nat :=
  match ideal_point front with
  | None => None
  | Some ideal => arg_best np_less (computed_distances dot dtype front ideal)
  end.

(** The place of a float64 in the order [np.argmin] scans by: NaN first,
    then the numbers from minus infinity to plus infinity, compared by sign,
    exponent and mantissa. *)
Definition float_rank (f : SpecFloat.spec_float) : Z * Z * Z :=
  match f with
  | SpecFloat.S754_nan => (-3, 0, 0)
  | SpecFloat.S754_infinity true => (-2, 0, 0)
  | SpecFloat.S754_finite true m e => (-1, - e, - Zpos m)
  | SpecFloat.S754_zero _ => (0, 0, 0)
  | SpecFloat.S754_finite false m e => (1, e, Zpos m)
  | SpecFloat.S754_infinity false => (2, 0, 0)
  end.

Definition rank_lt (a b : Z * Z * Z) : Prop :=
  let '(a1, a2, a3) := a in
  let '(b1, b2, b3) := b in
  a1 < b1 \/ (a1 = b1 /\ (a2 < b2 \/ (a2 = b2 /\ a3 < b3))).

End Pareto.

(** ** The LCA object *)

Module LCA.
Import stdpp.base stdpp.option stdpp.list stdpp.gmap stdpp.strings.
#[local] Open Scope Z_scope.

(** An impact method is a tuple of strings, a functional-unit name is a
    string.  Both are used as dictionary keys, and [analyze_lca] tests its
    argument against the keys of a dictionary, so the argument is any
    hashable of these two shapes. *)
Definition Method : Type := list string.

Inductive PyKey : Type :=
| KStr (s : string)
| KTuple (t : Method).

(** A technosphere exchange of an activity. *)
Record Exchange : Type := mkExchange {
  input : string;
  amount : Z;
  group_tag : option string
}.

Record Activity : Type := mkActivity {
  code : string;
  technosphere : list Exchange
}.

(** [self.techno_impact_results_grouped] is first a [defaultdict(list)] and
    is rebound to a plain dict of sums by the last comprehension. *)
Inductive Grouped : Type :=
| ByList (lists : gmap string (list Z))
| BySum (sums : gmap string Z).

Inductive Exn : Type :=
| AssertionError (msg : string)
| KeyError
| IndexError
| TypeError
| AttributeError
| EngineError
| Diverged.

(** The attributes of a [biorefinery_LCA] object that [calc_lca] and
    [analyze_lca] read or write; [None] is an attribute that has not been
    assigned yet. *)
Record biorefinery_LCA : Type := mkLCA {
  analysis_done : bool;
  LCA_results_dict : gmap string (gmap Method Z);
  top_processes_dict : option (gmap string (gmap Method (list (string * Z))));
  FU_codes : option (list (string * string));
  lcia_methods : option (list Method);
  calc_done : option bool;
  impact_of_interest : option PyKey;
  n_top_items : option nat;
  techno_impact_results_grouped : option Grouped;
  top_processes : option (list (string * Z));
  FU_activity : option Activity
}.

(** [__init__] (the project set-up calls have no effect on the object). *)
Definition init : biorefinery_LCA :=
  {| analysis_done := false;
     LCA_results_dict := ∅;
     top_processes_dict := None;
     FU_codes := None;
     lcia_methods := None;
     calc_done := None;
     impact_of_interest := None;
     n_top_items := None;
     techno_impact_results_grouped := None;
     top_processes := None;
     FU_activity := None |}.

(** *** Methods as state transformers that may raise *)

Inductive Outcome (A : Type) : Type :=
| Returned (a : A)
| Raised (e : Exn).
Arguments Returned {A} a.
Arguments Raised {A} e.

Definition M (A : Type) : Type := biorefinery_LCA -> Outcome A * biorefinery_LCA.

Definition ret {A} (a : A) : M A := fun self => (Returned a, self).
Definition raise {A} (e : Exn) : M A := fun self => (Raised e, self).
Definition bind {A B} (m : M A) (k : A -> M B) : M B :=
  fun self =>
    match m self with
    | (Returned a, self') => k a self'
    | (Raised e, self') => (Raised e, self')
    end.
Definition get : M biorefinery_LCA := fun self => (Returned self, self).
Definition modify (f : biorefinery_LCA -> biorefinery_LCA) : M unit :=
  fun self => (Returned tt, f self).
Definition from_option {A} (e : Exn) (o : option A) : M A :=
  match o with
  | Some a => ret a
  | None => raise e
  end.

Declare Scope py_scope.
Delimit Scope py_scope with py.
Notation "x <- m ;; k" := (bind m (fun x => k))
  (at level 100, m at next level, right associativity) : py_scope.
Notation "m ;;; k" := (bind m (fun _ => k))
  (at level 100, right associativity) : py_scope.
#[local] Open Scope py_scope.

(** [for x in l: body x] *)
Fixpoint for_each {A} (l : list A) (body : A -> M unit) : M unit :=
  match l with
  | [] => ret tt
  | x :: l' => body x ;;; for_each l' body
  end.

(** Attribute updates. *)
Definition set_analysis_done (b : bool) (s : biorefinery_LCA) :=
  mkLCA b (LCA_results_dict s) (top_processes_dict s) (FU_codes s)
        (lcia_methods s) (calc_done s) (impact_of_interest s) (n_top_items s)
        (techno_impact_results_grouped s) (top_processes s) (FU_activity s).
Definition set_LCA_results_dict d (s : biorefinery_LCA) :=
  mkLCA (analysis_done s) d (top_processes_dict s) (FU_codes s)
        (lcia_methods s) (calc_done s) (impact_of_interest s) (n_top_items s)
        (techno_impact_results_grouped s) (top_processes s) (FU_activity s).
Definition set_top_processes_dict d (s : biorefinery_LCA) :=
  mkLCA (analysis_done s) (LCA_results_dict s) (Some d) (FU_codes s)
        (lcia_methods s) (calc_done s) (impact_of_interest s) (n_top_items s)
        (techno_impact_results_grouped s) (top_processes s) (FU_activity s).
Definition set_calc_args codes methods done (s : biorefinery_LCA) :=
  mkLCA (analysis_done s) (LCA_results_dict s) (top_processes_dict s)
        (Some codes) (Some methods) (Some done) (impact_of_interest s)
        (n_top_items s) (techno_impact_results_grouped s) (top_processes s)
        (FU_activity s).
Definition set_calc_done done (s : biorefinery_LCA) :=
  mkLCA (analysis_done s) (LCA_results_dict s) (top_processes_dict s)
        (FU_codes s) (lcia_methods s) (Some done) (impact_of_interest s)
        (n_top_items s) (techno_impact_results_grouped s) (top_processes s)
        (FU_activity s).
Definition set_analyze_args k n (s : biorefinery_LCA) :=
  mkLCA (analysis_done s) (LCA_results_dict s) (top_processes_dict s)
        (FU_codes s) (lcia_methods s) (calc_done s) (Some k) (Some n)
        (techno_impact_results_grouped s) (top_processes s) (FU_activity s).
Definition set_grouped g (s : biorefinery_LCA) :=
  mkLCA (analysis_done s) (LCA_results_dict s) (top_processes_dict s)
        (FU_codes s) (lcia_methods s) (calc_done s) (impact_of_interest s)
        (n_top_items s) (Some g) (top_processes s) (FU_activity s).
Definition set_top_processes t (s : biorefinery_LCA) :=
  mkLCA (analysis_done s) (LCA_results_dict s) (top_processes_dict s)
        (FU_codes s) (lcia_methods s) (calc_done s) (impact_of_interest s)
        (n_top_items s) (techno_impact_results_grouped s) (Some t)
        (FU_activity s).

(** [d[fu][method] = v], creating [d[fu] = {}] first when [fu] is new. *)
Definition store {V} (fu : string) (method : Method) (v : V)
           (d : gmap string (gmap Method V)) : gmap string (gmap Method V) :=
  <[fu := <[method := v]> (default ∅ (d !! fu))]> d.

(** [key in d.keys()] for a dictionary whose keys are strings: a tuple is
    never equal to a string. *)
Definition key_in {V} (k : PyKey) (d : gmap string V) : bool :=
  match k with
  | KStr s => bool_decide (is_Some (d !! s))
  | KTuple _ => false
  end.

(** [d[key]] *)
Definition getitem {V} (k : PyKey) (d : gmap string V) : M V :=
  match k with
  | KStr s => from_option KeyError (d !! s)
  | KTuple _ => raise KeyError
  end.

(** [d[:stop]] where [d] is a dictionary: a slice is not a key a dictionary
    accepts. *)
Definition slice_of_dict {K V} `{Countable K} (d : gmap K V) (stop : nat)
  : M (list (string * Z)) :=
  raise TypeError.

(** [grouped[tag].append(score)] on a [defaultdict(list)]: a missing bucket
    is created empty first. *)
Definition append_score (tag : string) (score : Z)
           (lists : gmap string (list Z)) : gmap string (list Z) :=
  <[tag := default [] (lists !! tag) ++ [score]]> lists.

(** [sum(val)] *)
Definition py_sum (val : list Z) : Z := foldr Z.add 0 val.

(** [{key: sum(val) for key, val in grouped.items()}] *)
Definition sum_buckets (lists : gmap string (list Z)) : gmap string Z :=
  py_sum <$> lists.

(** The impact engine: [LCA({activity: amount}, method)] followed by
    [lci()], [lcia()] and [.score]; [None] when the engine rejects the call. *)
Definition ImpactEngine : Type := string -> Z -> PyKey -> option Z.

Section Engine.
Variable lca_score : ImpactEngine.
(** [ContributionAnalysis().annotated_top_processes(lca)] *)
Variable annotated_top_processes : string -> Z -> PyKey -> list (string * Z).

(** The body of the two nested loops of [calc_lca]. *)
Definition calc_one (db : list Activity) (vanillin_production : gmap string Z)
           (methods : list Method) (fu : string * string) : M unit :=
  let '(FU_name, FU_code) := fu in
  act <- from_option IndexError
           (head (List.filter (fun act => String.eqb (code act) FU_code) db)) ;;
  amount_FU <- from_option KeyError (vanillin_production !! FU_name) ;;
  for_each methods (fun method =>
    score <- from_option EngineError
               (lca_score (code act) amount_FU (KTuple method)) ;;
    modify (fun s =>
      set_LCA_results_dict (store FU_name method score (LCA_results_dict s)) s) ;;;
    modify (fun s =>
      set_top_processes_dict
        (store FU_name method
               (annotated_top_processes (code act) amount_FU (KTuple method))
               (default ∅ (top_processes_dict s))) s)).

Definition calc_lca (methods : list Method) (db : list Activity)
           (codes : list (string * string))
           (vanillin_production : gmap string Z) (calc_done : bool) : M unit :=
  modify (set_calc_args codes methods calc_done) ;;;
  modify (set_LCA_results_dict ∅) ;;;
  modify (set_top_processes_dict ∅) ;;;
  for_each codes (calc_one db vanillin_production methods) ;;;
  modify (set_calc_done true).

(** The score [calc_lca] stores for a functional unit and a method: the
    engine run on the first activity of the database carrying the unit's
    code, with the unit's production as amount. *)
Definition impact_result (db : list Activity)
           (vanillin_production : gmap string Z)
           (fu : string * string) (method : Method) : option Z :=
  act ← head (List.filter (fun act => String.eqb (code act) (snd fu)) db) ;
  amount_FU ← vanillin_production !! fst fu ;
  lca_score (code act) amount_FU (KTuple method).

(** A functional unit the loops of [calc_lca] get through: its code is in
    the database, its name has a production amount, and the engine scores
    it under every method. *)
Definition fu_ready (db : list Activity) (vanillin_production : gmap string Z)
           (methods : list Method) (fu : string * string) : Prop :=
  exists act amount_FU,
    head (List.filter (fun act => String.eqb (code act) (snd fu)) db) = Some act /\
    vanillin_production !! fst fu = Some amount_FU /\
    forall m, m ∈ methods ->
              is_Some (lca_score (code act) amount_FU (KTuple m)).

(** One turn of [for exc in self.FU_activity.technosphere()]: the engine is
    run on the exchange, then the score is appended to the bucket of the
    exchange's tag.  Once the attribute has been rebound to the dictionary
    of sums, a bucket is a number and has no [append]. *)
Definition group_exchange (k : PyKey) (exc : Exchange) : M unit :=
  score <- from_option EngineError (lca_score (input exc) (amount exc) k) ;;
  self <- get ;;
  grouped <- from_option AttributeError (techno_impact_results_grouped self) ;;
  tag <- from_option KeyError (group_tag exc) ;;
  match grouped with
  | ByList lists => modify (set_grouped (ByList (append_score tag score lists)))
  | BySum sums => from_option KeyError (sums !! tag) ;;; raise AttributeError
  end.

(** The grouping statements of the loop body: the [for] loop over the
    exchanges and the comprehension that sums every bucket.  On a dictionary
    of numbers the comprehension has nothing to do when the dictionary is
    empty, and otherwise calls [sum] on a number, a TypeError. *)
Definition aggregate_exchanges (k : PyKey) : M unit :=
  self <- get ;;
  act <- from_option AttributeError (FU_activity self) ;;
  for_each (technosphere act) (group_exchange k) ;;;
  self <- get ;;
  match techno_impact_results_grouped self with
  | Some (ByList lists) => modify (set_grouped (BySum (sum_buckets lists)))
  | Some (BySum sums) =>
      if decide (sums = ∅) then modify (set_grouped (BySum ∅))
      else raise TypeError
  | None => raise AttributeError
  end.

(** The body of [while not self.analysis_done].  Its first statement
    slices [self.top_processes_dict[impact]], which is a dictionary keyed
    by method: the subscript with a slice raises TypeError. *)
Definition loop_body (k : PyKey) (n : nat) : M unit :=
  self <- get ;;
  tpd <- from_option AttributeError (top_processes_dict self) ;;
  by_method <- getitem k tpd ;;
  top <- slice_of_dict by_method (n + 1) ;;
  modify (set_top_processes top) ;;;
  aggregate_exchanges k ;;;
  modify (set_analysis_done true).

(** The scores of the exchanges that carry [tag], in order. *)
Definition tag_scores (k : PyKey) (tag : string) (excs : list Exchange)
  : list Z :=
  omap (fun exc =>
          if decide (group_tag exc = Some tag)
          then lca_score (input exc) (amount exc) k
          else None) excs.

(** [while not self.analysis_done: body] *)
Fixpoint while_not_done (fuel : nat) (body : M unit) : M unit :=
  fun self =>
    if analysis_done self then (Returned tt, self)
    else match fuel with
         | O => (Raised Diverged, self)
         | S fuel' => (body ;;; while_not_done fuel' body) self
         end.

(** [analyze_lca(impact_of_interest, n_top_items)].  The keyword argument
    [analysis_done] is never read. *)
Definition analyze_lca (fuel : nat) (k : PyKey) (n : nat) : M unit :=
  modify (set_analyze_args k n) ;;;
  self <- get ;;
  if negb (key_in k (LCA_results_dict self))
  then raise (AssertionError "This method is not in your LCIA method list!")
  else
    modify (set_analysis_done true) ;;;
    modify (set_grouped (ByList ∅)) ;;;
    self <- get ;;
    while_not_done fuel (loop_body k (default 0%nat (n_top_items self))).
End Engine.

(** [gen_report()]: the guard, then [pass]. *)
Definition gen_report : M unit :=
  self <- get ;;
  if negb (analysis_done self)
  then raise (AssertionError "please run the 'analyze_lca' method first!")
  else ret tt.

(** *** [gen_fig]

    [gen_fig] assigns two attributes of its own, [data_to_plot_dict] and
    [df_for_plot], and hands a chart to the plotting library.  The dictionary
    and the one-row data frame built from it are association lists in
    insertion order; the chart is the call made to the library (the text
    labels, rounded values, are left out).  A bar plot of a frame without
    columns is refused by the library with a TypeError. *)
Record Plotter : Type := mkPlotter {
  lca_obj : biorefinery_LCA;
  data_to_plot_dict : option (list (string * Z));
  df_for_plot : option (list (string * Z))
}.

Inductive Chart : Type :=
| BarH (columns : list (string * Z)) (x_label y_label : string)
| Waterfall (name : string) (measure : list string)
            (x : list string) (y : list Z)
| Printed (message : string).

(** [df[name] = v] on a one-row frame: an existing column is overwritten in
    place, a new one is added last. *)
Fixpoint set_column (name : string) (v : Z) (df : list (string * Z))
  : list (string * Z) :=
  match df with
  | [] => [(name, v)]
  | (c, x) :: rest =>
      if String.eqb c name then (c, v) :: rest
      else (c, x) :: set_column name v rest
  end.

(** ['-'.join(key)]: a tuple gives its strings, a string its characters. *)
Definition join (sep : string) (k : PyKey) : string :=
  match k with
  | KStr s =>
      String.concat sep (List.map (fun c => String c EmptyString)
                                  (String.list_ascii_of_string s))
  | KTuple t => String.concat sep t
  end.

Definition gen_fig (data_to_plot : list (string * Z))
           (plot_type x_label y_label : string) (p : Plotter)
  : Outcome Chart * Plotter :=
  if negb (analysis_done (lca_obj p))
  then (Raised (AssertionError "please run the 'analyze_lca' method first!"), p)
  else
    let p1 := mkPlotter (lca_obj p) (Some data_to_plot) (Some data_to_plot) in
    if String.eqb plot_type "bar plot"
    then
      match data_to_plot with
      | [] => (Raised TypeError, p1)
      | _ :: _ => (Returned (BarH data_to_plot x_label y_label), p1)
      end
    else if String.eqb plot_type "waterfall chart"
    then
      let measure_type :=
        repeat "relative"%string (length data_to_plot) ++ ["total"%string] in
      let df := set_column "net" (py_sum (List.map snd data_to_plot))
                           data_to_plot in
      let p2 := mkPlotter (lca_obj p) (Some data_to_plot) (Some df) in
      let values_to_plot := List.map snd df in
      let waterfall_x_label := List.map fst df in
      match impact_of_interest (lca_obj p) with
      | None => (Raised AttributeError, p2)
      | Some k =>
          (Returned (Waterfall (join "-" k) measure_type waterfall_x_label
                               values_to_plot), p2)
      end
    else (Returned (Printed "Please choose 'bar plot' or 'waterfall chart' "), p1).

End LCA.

(** ** The cells that drive the LCA object *)

Module Notebook.
Import stdpp.base stdpp.list stdpp.strings stdpp.pretty.

(** [range(start, 0, -1)] *)
Definition range_down (start : nat) : list nat := rev (seq 1 start).

(** [{f'Vanillin {i}% production': f'ThisIsFU{i}' for i in range(start, 0, -1)}],
    in insertion order. *)
Definition FU_codes_from (start : nat) : list (string * string) :=
  List.map (fun i => ("Vanillin " +:+ pretty i +:+ "% production",
                      "ThisIsFU" +:+ pretty i))
           (range_down start).

(** The sweep of the notebook: from 100% of the woodchips down to 1%. *)
Definition FU_codes : list (string * string) := FU_codes_from 100.

End Notebook.

(** ** A small inventory to run the LCA object on *)

Module Sample.
Import stdpp.base stdpp.option stdpp.list stdpp.gmap stdpp.strings.
Import LCA.
#[local] Open Scope Z_scope.

(** An engine whose score is the amount asked for, whatever the method. *)
Definition lca_score (activity : string) (amount : Z) (method : PyKey)
  : option Z := Some amount.
Definition annotated_top_processes (activity : string) (amount : Z)
           (method : PyKey) : list (string * Z) := [(activity, amount)].

Definition global_warming : Method :=
  ["TRACI (obsolete)"; "environmental impact"; "global warming"]%string.

Definition fu_name : string := "Vanillin 1% production".

Definition fu_activity : Activity :=
  mkActivity "ThisIsFU1"
    [mkExchange "heat" 5 (Some "energy"%string);
     mkExchange "water" 2 (Some "utilities"%string);
     mkExchange "steam" 7 (Some "energy"%string)].

Definition db : list Activity := [fu_activity].
Definition codes : list (string * string) := [(fu_name, "ThisIsFU1"%string)].
Definition production : gmap string Z := {[fu_name := 1]}.

(** The object after [__init__] and one [calc_lca] call; the caller also
    sets [FU_activity], which no method of the class assigns. *)
Definition after_calc : biorefinery_LCA :=
  let self :=
    snd (calc_lca lca_score annotated_top_processes [global_warming] db codes
                  production false init) in
  mkLCA (analysis_done self) (LCA_results_dict self) (top_processes_dict self)
        (FU_codes self) (lcia_methods self) (calc_done self)
        (impact_of_interest self) (n_top_items self)
        (techno_impact_results_grouped self) (top_processes self)
        (Some fu_activity).

End Sample.

(** ** The dominance rule of the specification

    Section 4.5 of the specification words dominance on scenarios: [a]
    dominates [b] when it is at least as good on both objectives and is not
    the same scenario.  A scenario is identified by its position in the
    sequence it is taken from. *)

Module Rule.
Import Pareto.

Definition dominates_by_identity (l : list Point) (a b : nat) : Prop :=
  exists pa pb,
    nth_error l a = Some pa /\ nth_error l b = Some pb /\
    fst pa <= fst pb /\ snd pa >= snd pb /\ a <> b.

End Rule.

(** * Properties of the Pareto stage *)

Import PyList Pareto Rule.

(** ** Enumerations and filters *)

Section Enumerate.
Context {A : Type}.

Lemma combine_seq_In (l : list A) (s i : nat) (x : A) :
  In (i, x) (combine (seq s (length l)) l) <->
  (s <= i)%nat /\ nth_error l (i - s) = Some x.
Proof.
  revert s. induction l as [|y l IH]; intros s; simpl.
  - split; [tauto|]. intros [_ H]. destruct (i - s)%nat; discriminate.
  - rewrite IH. split.
    + intros [H | [Hle Hn]].
      * inversion H; subst. rewrite Nat.sub_diag. split; [lia | reflexivity].
      * split; [lia|]. replace (i - s)%nat with (S (i - S s)) by lia. exact Hn.
    + intros [Hle Hn]. destruct (Nat.eq_dec i s) as [-> | Hne].
      * rewrite Nat.sub_diag in Hn. left. simpl in Hn. congruence.
      * right. split; [lia|].
        replace (i - s)%nat with (S (i - S s)) in Hn by lia. exact Hn.
Qed.

Lemma enumerate_In (l : list A) (i : nat) (x : A) :
  In (i, x) (enumerate l) <-> nth_error l i = Some x.
Proof.
  unfold enumerate. rewrite combine_seq_In, Nat.sub_0_r.
  split; [tauto | intros H; split; [lia | exact H]].
Qed.

Lemma filter_combine_seq_snd (f : A -> bool) (l : list A) (s : nat) :
  map snd (filter (fun ip => f (snd ip)) (combine (seq s (length l)) l))
  = filter f l.
Proof.
  revert s. induction l as [|y l IH]; intros s; simpl; [reflexivity|].
  destruct (f y); simpl; rewrite IH; reflexivity.
Qed.
End Enumerate.

(** ** The dominance test *)

Lemma point_eqb_eq (a b : Point) : point_eqb a b = true <-> a = b.
Proof.
  destruct a as [a1 a2], b as [b1 b2]. unfold point_eqb; simpl.
  rewrite andb_true_iff, !Z.eqb_eq. split; [intros [-> ->]; reflexivity|].
  intros H; inversion H; auto.
Qed.

Lemma point_eqb_refl (a : Point) : point_eqb a a = true.
Proof. apply point_eqb_eq; reflexivity. Qed.

Lemma dominates_iff (other point : Point) :
  dominates other point = true <->
  fst other <= fst point /\ snd other >= snd point /\ other <> point.
Proof.
  unfold dominates.
  rewrite !andb_true_iff, negb_true_iff, Z.leb_le, Z.geb_le, <- not_true_iff_false,
    point_eqb_eq.
  split; [intros [[H1 H2] H3] | intros (H1 & H2 & H3)]; repeat split; auto; lia.
Qed.

Lemma dominates_irrefl (p : Point) : dominates p p = false.
Proof.
  apply not_true_iff_false. rewrite dominates_iff. intros (_ & _ & H). auto.
Qed.

Lemma dominates_trans (a b c : Point) :
  dominates a b = true -> dominates b c = true -> dominates a c = true.
Proof.
  rewrite !dominates_iff. intros (H1 & H2 & H3) (H4 & H5 & H6).
  repeat split; try lia. intros ->. apply H3.
  destruct b, c; simpl in *. f_equal; lia.
Qed.

Lemma is_dominated_iff (point : Point) (others : list Point) :
  is_dominated point others = true <->
  exists other, In other others /\ dominates other point = true.
Proof.
  induction others as [|o rest IH]; simpl.
  - split; [discriminate | intros (? & [] & _)].
  - destruct (dominates o point) eqn:E.
    + split; [|reflexivity]. intros _. exists o. auto.
    + rewrite IH. split.
      * intros (x & Hx & Hd). exists x. auto.
      * intros (x & [-> | Hx] & Hd); [congruence|]. exists x. auto.
Qed.

Lemma not_dominated_iff (point : Point) (others : list Point) :
  is_dominated point others = false <->
  forall other, In other others -> dominates other point = false.
Proof.
  rewrite <- not_true_iff_false, is_dominated_iff. split.
  - intros H o Ho. destruct (dominates o point) eqn:E; [|reflexivity].
    exfalso. apply H. exists o. auto.
  - intros H (o & Ho & Hd). rewrite (H o Ho) in Hd. discriminate.
Qed.

(** ** The comprehension *)

Lemma pareto_front_In (pts : list Point) (p : Point) :
  In p (pareto_front pts) <-> In p pts /\ is_dominated p pts = false.
Proof.
  unfold pareto_front. rewrite filter_In, negb_true_iff. reflexivity.
Qed.

Lemma kept_In (pts : list Point) (i : nat) (p : Point) :
  In (i, p) (kept pts) <-> nth_error pts i = Some p /\ is_dominated p pts = false.
Proof.
  unfold kept. rewrite filter_In, enumerate_In, negb_true_iff. reflexivity.
Qed.

Lemma kept_values (pts : list Point) : map snd (kept pts) = pareto_front pts.
Proof.
  unfold kept, pareto_front, enumerate.
  apply (filter_combine_seq_snd (fun p => negb (is_dominated p pts))).
Qed.

Lemma front_positions_In (pts : list Point) (i : nat) :
  In i (front_positions pts) <->
  exists p, nth_error pts i = Some p /\ is_dominated p pts = false.
Proof.
  unfold front_positions. rewrite in_map_iff. split.
  - intros ([j p] & <- & H). exists p. apply kept_In. exact H.
  - intros (p & H). exists (i, p). split; [reflexivity|]. apply kept_In. exact H.
Qed.

(** Row [r] of the front is the scenario at position [front_positions[r]]. *)
Lemma front_row_source (pts : list Point) (r j : nat) :
  nth_error (front_positions pts) r = Some j ->
  exists p, nth_error (pareto_front pts) r = Some p /\
            nth_error pts j = Some p /\ is_dominated p pts = false.
Proof.
  unfold front_positions. rewrite <- kept_values, !nth_error_map.
  destruct (nth_error (kept pts) r) as [[j' p]|] eqn:E; simpl; [|discriminate].
  intros H; inversion H; subst. exists p. split; [reflexivity|].
  apply kept_In. eapply nth_error_In; eauto.
Qed.

Lemma front_positions_length (pts : list Point) :
  length (front_positions pts) = length (pareto_front pts).
Proof.
  unfold front_positions. rewrite <- kept_values, !length_map. reflexivity.
Qed.

Lemma filter_all {A : Type} (f : A -> bool) (l : list A) :
  (forall x, In x l -> f x = true) -> filter f l = l.
Proof.
  induction l as [|x l IH]; simpl; intros H; [reflexivity|].
  rewrite (H x (or_introl eq_refl)), IH; auto.
Qed.

(** Narrowing a test on a list that holds a witness of the difference
    shortens the filtered list. *)
Lemma filter_length_lt {A : Type} (f g : A -> bool) (l : list A) (x : A) :
  (forall y, f y = true -> g y = true) ->
  In x l -> g x = true -> f x = false ->
  (length (filter f l) < length (filter g l))%nat.
Proof.
  intros Hfg Hin Hg Hf.
  assert (Hle : forall l', (length (filter f l') <= length (filter g l'))%nat).
  { induction l' as [|y l' IH]; simpl; [lia|].
    destruct (f y) eqn:Ef.
    - rewrite (Hfg y Ef). simpl. lia.
    - destruct (g y); simpl; lia. }
  induction l as [|y l IH]; simpl; [destruct Hin|].
  destruct Hin as [-> | Hin].
  - rewrite Hf, Hg. simpl. specialize (Hle l). lia.
  - specialize (IH Hin). destruct (f y) eqn:Ef.
    + rewrite (Hfg y Ef). simpl. lia.
    + destruct (g y); simpl; lia.
Qed.

(** Every dominated point has a dominator that nothing dominates: follow
    dominators, the number of points dominating the current one decreases. *)
Lemma undominated_dominator (pts : list Point) (p : Point) :
  is_dominated p pts = true ->
  exists q, In q pts /\ is_dominated q pts = false /\ dominates q p = true.
Proof.
  intros Hp. apply is_dominated_iff in Hp. destruct Hp as (q0 & Hq0 & Hd0).
  assert (H : forall n q,
             (length (filter (fun o => dominates o q) pts) < n)%nat ->
             In q pts -> dominates q p = true ->
             exists r, In r pts /\ is_dominated r pts = false /\
                       dominates r p = true).
  { induction n as [|n IH]; intros q Hn Hq Hd; [lia|].
    destruct (is_dominated q pts) eqn:E; [|exists q; auto].
    apply is_dominated_iff in E. destruct E as (r & Hr & Hrq).
    apply (IH r); auto.
    - assert (Hlt := filter_length_lt
                       (fun o => dominates o r) (fun o => dominates o q) pts r).
      simpl in Hlt. specialize (Hlt (fun y Hy => dominates_trans y r q Hy Hrq)
                                    Hr Hrq (dominates_irrefl r)).
      lia.
    - eapply dominates_trans; eauto. }
  exact (H _ q0 (Nat.lt_succ_diag_r _) Hq0 Hd0).
Qed.

(** ** The membership rule *)

(** C1, as stated, fails: two scenarios with the same (gwp, npv) both stay on
    the front although, by the identity rule, each dominates the other. *)
Lemma membership_by_identity_fails :
  let pts := [(1, 1); (1, 1)] in
  ~ (In 0%nat (front_positions pts) <->
     forall j, (j < length pts)%nat -> ~ dominates_by_identity pts j 0).
Proof.
  intros pts [H _]. apply (H (or_introl eq_refl) 1%nat); [simpl; lia|].
  exists (1, 1), (1, 1). simpl. repeat split; try lia; discriminate.
Qed.

(** C1 (amended): the scenario at position [i] of the input is on the front
    exactly when no point of the input is at least as good on both objectives
    with a different (gwp, npv) pair; the same holds of its value in the
    returned list. *)
Theorem pareto_front_membership (pts : list Point) (i : nat) (p : Point) :
  nth_error pts i = Some p ->
  let undominated :=
    forall j q, nth_error pts j = Some q ->
                ~ (fst q <= fst p /\ snd q >= snd p /\ q <> p) in
  (In i (front_positions pts) <-> undominated) /\
  (In p (pareto_front pts) <-> undominated).
Proof.
  intros Hi undominated.
  assert (Hu : is_dominated p pts = false <-> undominated).
  { rewrite not_dominated_iff. unfold undominated. split.
    - intros H j q Hq Hd. apply dominates_iff in Hd.
      rewrite (H q (nth_error_In _ _ Hq)) in Hd. discriminate.
    - intros H q Hq. apply In_nth_error in Hq. destruct Hq as [j Hj].
      apply not_true_iff_false. rewrite dominates_iff. eauto. }
  split.
  - rewrite front_positions_In, <- Hu. split.
    + intros (p' & Hp' & Hd). congruence.
    + intros Hd. exists p. auto.
  - rewrite pareto_front_In, <- Hu. split; [tauto|].
    intros Hd. split; [eapply nth_error_In; eauto | exact Hd].
Qed.

Lemma pareto_front_membership_witness :
  let pts := [(-10, 100); (-8, 150); (-5, 90); (-8, 80)] in
  nth_error pts 1 = Some (-8, 150) /\ In 1%nat (front_positions pts).
Proof.
  intros pts. split; [reflexivity|].
  apply (pareto_front_membership pts 1 (-8, 150) eq_refl).
  intros j q Hq (H1 & H2 & H3).
  destruct j as [|[|[|[|j]]]]; simpl in Hq; inversion Hq; subst; simpl in *;
    try lia; try (apply H3; reflexivity).
  destruct j; discriminate.
Defined.

(** ** Antichain *)

(** C2, as stated, fails: the two rows of the front below are distinct
    scenarios and each dominates the other by the identity rule. *)
Lemma antichain_by_identity_fails :
  let front := pareto_front [(1, 1); (1, 1)] in
  ~ (forall a b, (a < length front)%nat -> (b < length front)%nat -> a <> b ->
                 ~ dominates_by_identity front a b /\
                 ~ dominates_by_identity front b a).
Proof.
  intros front H.
  destruct (H 0%nat 1%nat) as [H01 _]; simpl; try lia.
  apply H01. exists (1, 1), (1, 1). simpl. repeat split; try lia; discriminate.
Qed.

(** C2 (amended): no member of the returned front is at least as good as
    another member on both objectives with a different (gwp, npv) pair; front
    members that compare both ways have identical values. *)
Theorem pareto_antichain (pts : list Point) (a b : Point) :
  In a (pareto_front pts) -> In b (pareto_front pts) ->
  ~ (fst a <= fst b /\ snd a >= snd b /\ a <> b) /\
  ~ (fst b <= fst a /\ snd b >= snd a /\ b <> a).
Proof.
  intros Ha Hb. apply pareto_front_In in Ha, Hb.
  destruct Ha as [Ha Hda], Hb as [Hb Hdb].
  rewrite not_dominated_iff in Hda, Hdb.
  split; intros Hd; apply dominates_iff in Hd.
  - rewrite (Hdb a Ha) in Hd. discriminate.
  - rewrite (Hda b Hb) in Hd. discriminate.
Qed.

Lemma pareto_antichain_witness :
  let pts := [(-10, 100); (-8, 150); (-5, 90); (-8, 80)] in
  In (-10, 100) (pareto_front pts) /\ In (-8, 150) (pareto_front pts) /\
  ~ (fst (-10, 100) <= fst (-8, 150) /\ snd (-10, 100) >= snd (-8, 150)
     /\ (-10, 100) <> (-8, 150)).
Proof.
  intros pts.
  assert (Ha : In (-10, 100) (pareto_front pts)) by (simpl; auto).
  assert (Hb : In (-8, 150) (pareto_front pts)) by (simpl; auto).
  split; [exact Ha|]. split; [exact Hb|].
  exact (proj1 (pareto_antichain pts (-10, 100) (-8, 150) Ha Hb)).
Defined.

(** ** Completeness *)



(** ** Idempotence *)

(** C4: filtering the front again returns the same front, as a list. *)
Theorem pareto_front_idempotent (pts : list Point) :
  pareto_front (pareto_front pts) = pareto_front pts.
Proof.
  unfold pareto_front at 1. apply filter_all. intros p Hp.
  apply negb_true_iff, not_dominated_iff. intros o Ho.
  apply pareto_front_In in Hp, Ho. destruct Hp as [_ Hp], Ho as [Ho _].
  rewrite not_dominated_iff in Hp. auto.
Qed.

(** ** The arg-optimum scan *)

Section ArgBest.
Context {A : Type} (better : A -> A -> bool).
Hypothesis better_irrefl : forall a, better a a = false.
Hypothesis better_trans :
  forall a b c, better a b = true -> better b c = true -> better a c = true.
Hypothesis better_neg_trans :
  forall a b c, better a b = false -> better b c = false -> better a c = false.

Lemma best_so_far_step (pre : list A) (k : nat) (b x : A) :
  best_so_far better pre k b ->
  if better x b then best_so_far better (pre ++ [x]) (length pre) x
  else best_so_far better (pre ++ [x]) k b.
Proof.
  intros (Hk & Hall & Hbefore).
  assert (Hlt : (k < length pre)%nat).
  { apply nth_error_Some. congruence. }
  assert (Hsplit : forall i y, nth_error (pre ++ [x]) i = Some y ->
            ((i < length pre)%nat /\ nth_error pre i = Some y) \/
            (i = length pre /\ y = x)).
  { intros i y H. destruct (Nat.lt_ge_cases i (length pre)) as [Hi | Hi].
    - left. split; [exact Hi|]. rewrite nth_error_app1 in H; auto.
    - right. rewrite nth_error_app2 in H by lia.
      destruct (i - length pre)%nat as [|n] eqn:E; simpl in H.
      + split; [lia | congruence].
      + destruct n; discriminate. }
  destruct (better x b) eqn:E.
  - split; [|split].
    + rewrite nth_error_app2, Nat.sub_diag by lia. reflexivity.
    + intros i y H. destruct (Hsplit i y H) as [[Hi Hy] | [_ ->]]; auto.
      destruct (better y x) eqn:Eyx; [|reflexivity].
      rewrite <- (Hall i y Hy). symmetry. eapply better_trans; eauto.
    + intros i y H Hi. destruct (Hsplit i y H) as [[_ Hy] | [Hi' _]]; [|lia].
      destruct (better x y) eqn:Exy; [reflexivity|].
      rewrite <- E. symmetry. eapply better_neg_trans; eauto.
  - split; [|split].
    + rewrite nth_error_app1 by lia. exact Hk.
    + intros i y H. destruct (Hsplit i y H) as [[Hi Hy] | [_ ->]]; eauto.
    + intros i y H Hi. destruct (Hsplit i y H) as [[_ Hy] | [Hi' _]]; [|lia].
      eauto.
Qed.

Lemma arg_scan_spec (l pre : list A) (k : nat) (b : A) :
  best_so_far better pre k b ->
  exists b', best_so_far better (pre ++ l) (arg_scan better k b (length pre) l) b'.
Proof.
  revert pre k b. induction l as [|x l IH]; intros pre k b H; simpl.
  - rewrite app_nil_r. eauto.
  - assert (Hs := best_so_far_step pre k b x H).
    replace (pre ++ x :: l) with ((pre ++ [x]) ++ l)
      by (rewrite <- app_assoc; reflexivity).
    replace (S (length pre)) with (length (pre ++ [x]))
      by (rewrite length_app; simpl; lia).
    destruct (better x b); apply IH; exact Hs.
Qed.

Lemma arg_best_spec (l : list A) :
  l <> [] -> exists k b, arg_best better l = Some k /\ best_so_far better l k b.
Proof.
  destruct l as [|x l]; [congruence|]. intros _. simpl.
  destruct (arg_scan_spec l [x] 0 x) as [b Hb].
  - split; [reflexivity|]. split.
    + intros [|[|i]] y H; simpl in H; try discriminate.
      inversion H; subst. apply better_irrefl.
    + intros i y _ Hi. lia.
  - exists (arg_scan better 0 x 1 l), b. split; [reflexivity | exact Hb].
Qed.

(** The builtin returns the value found at the arg-optimum. *)
Lemma best_of_scan (l pre : list A) (k : nat) (b : A) :
  nth_error pre k = Some b ->
  nth_error (pre ++ l) (arg_scan better k b (length pre) l)
  = Some (fold_left (fun best y => if better y best then y else best) l b).
Proof.
  revert pre k b. induction l as [|x l IH]; intros pre k b H; simpl.
  - rewrite app_nil_r. exact H.
  - replace (pre ++ x :: l) with ((pre ++ [x]) ++ l)
      by (rewrite <- app_assoc; reflexivity).
    replace (S (length pre)) with (length (pre ++ [x]))
      by (rewrite length_app; simpl; lia).
    destruct (better x b); apply IH.
    + rewrite nth_error_app2, Nat.sub_diag by lia. reflexivity.
    + rewrite nth_error_app1; [exact H|]. apply nth_error_Some. congruence.
Qed.

Lemma best_of_arg_best (l : list A) (k : nat) :
  arg_best better l = Some k -> best_of better l = nth_error l k.
Proof.
  destruct l as [|x l]; simpl; [discriminate|]. intros H. inversion H; subst.
  symmetry. apply (best_of_scan l [x] 0 x). reflexivity.
Qed.
End ArgBest.

Lemma ltb_irrefl_Z (a : Z) : (a <? a) = false.
Proof. apply Z.ltb_irrefl. Qed.

Lemma ltb_trans_Z (a b c : Z) :
  (a <? b) = true -> (b <? c) = true -> (a <? c) = true.
Proof. rewrite !Z.ltb_lt. lia. Qed.

Lemma ltb_neg_trans_Z (a b c : Z) :
  (a <? b) = false -> (b <? c) = false -> (a <? c) = false.
Proof. rewrite !Z.ltb_ge. lia. Qed.

Lemma gtb_irrefl_Z (a : Z) : (a >? a) = false.
Proof. rewrite Z.gtb_ltb. apply Z.ltb_irrefl. Qed.

Lemma gtb_trans_Z (a b c : Z) :
  (a >? b) = true -> (b >? c) = true -> (a >? c) = true.
Proof. rewrite !Z.gtb_ltb, !Z.ltb_lt. lia. Qed.

Lemma gtb_neg_trans_Z (a b c : Z) :
  (a >? b) = false -> (b >? c) = false -> (a >? c) = false.
Proof. rewrite !Z.gtb_ltb, !Z.ltb_ge. lia. Qed.

Lemma distance_ltb_irrefl (a : Distance) : distance_ltb a a = false.
Proof. apply Z.ltb_irrefl. Qed.

Lemma distance_ltb_trans (a b c : Distance) :
  distance_ltb a b = true -> distance_ltb b c = true -> distance_ltb a c = true.
Proof. apply ltb_trans_Z. Qed.

Lemma distance_ltb_neg_trans (a b c : Distance) :
  distance_ltb a b = false -> distance_ltb b c = false ->
  distance_ltb a c = false.
Proof. apply ltb_neg_trans_Z. Qed.

(** ** The representative selectors *)

Lemma combine_fst_snd {A B : Type} (l : list (A * B)) :
  combine (map fst l) (map snd l) = l.
Proof.
  induction l as [|[a b] l IH]; simpl; [reflexivity | rewrite IH; reflexivity].
Qed.

Lemma map_not_nil {A B : Type} (f : A -> B) (l : list A) :
  l <> [] -> map f l <> [].
Proof. destruct l; simpl; congruence. Qed.

Lemma nth_error_map_inv {A B : Type} (f : A -> B) (l : list A) (k : nat) (b : B) :
  nth_error (map f l) k = Some b -> exists a, nth_error l k = Some a /\ f a = b.
Proof.
  rewrite nth_error_map. destruct (nth_error l k) as [a|]; simpl; [|discriminate].
  intros H; inversion H. eauto.
Qed.

(** [np.argmin]: the first position of the least value. *)
Lemma argmin_spec (l : list Z) :
  l <> [] ->
  exists k b, argmin l = Some k /\ py_min l = Some b /\ nth_error l k = Some b /\
    (forall i y, nth_error l i = Some y -> b <= y) /\
    (forall i y, nth_error l i = Some y -> (i < k)%nat -> b < y).
Proof.
  intros Hl.
  destruct (arg_best_spec Z.ltb ltb_irrefl_Z ltb_trans_Z ltb_neg_trans_Z l Hl)
    as (k & b & Hk & Hb & Hall & Hbefore).
  exists k, b. unfold argmin, py_min.
  rewrite (best_of_arg_best Z.ltb l k Hk). repeat split; auto.
  - intros i y H. apply Z.ltb_ge. eauto.
  - intros i y H Hi. apply Z.ltb_lt. eauto.
Qed.

(** [np.argmax]: the first position of the greatest value. *)
Lemma argmax_spec (l : list Z) :
  l <> [] ->
  exists k b, argmax l = Some k /\ py_max l = Some b /\ nth_error l k = Some b /\
    (forall i y, nth_error l i = Some y -> y <= b) /\
    (forall i y, nth_error l i = Some y -> (i < k)%nat -> y < b).
Proof.
  intros Hl.
  destruct (arg_best_spec Z.gtb gtb_irrefl_Z gtb_trans_Z gtb_neg_trans_Z l Hl)
    as (k & b & Hk & Hb & Hall & Hbefore).
  exists k, b. unfold argmax, py_max.
  rewrite (best_of_arg_best Z.gtb l k Hk). repeat split; auto.
  - intros i y H. specialize (Hall i y H). rewrite Z.gtb_ltb, Z.ltb_ge in Hall.
    exact Hall.
  - intros i y H Hi. specialize (Hbefore i y H Hi).
    rewrite Z.gtb_ltb, Z.ltb_lt in Hbefore. exact Hbefore.
Qed.

(** C7: on a non-empty front, [min_gwp_index] is the position of a member of
    least gwp and [max_npv_index] the position of a member of greatest npv,
    and each is the earliest such position. *)
Theorem best_single_objective (front : list Point) :
  front <> [] ->
  exists i j best_gwp best_npv,
    min_gwp_index front = Some i /\ nth_error front i = Some best_gwp /\
    max_npv_index front = Some j /\ nth_error front j = Some best_npv /\
    (forall k q, nth_error front k = Some q ->
                 fst best_gwp <= fst q /\ snd q <= snd best_npv) /\
    (forall k q, nth_error front k = Some q ->
                 ((k < i)%nat -> fst best_gwp < fst q) /\
                 ((k < j)%nat -> snd q < snd best_npv)).
Proof.
  intros Hne.
  destruct (argmin_spec (pareto_GWP front) (map_not_nil fst front Hne))
    as (i & g & Hi & _ & Hg & Hmin & Hfirst_min).
  destruct (argmax_spec (pareto_NPV front) (map_not_nil snd front Hne))
    as (j & n & Hj & _ & Hn & Hmax & Hfirst_max).
  unfold pareto_GWP, pareto_NPV in *.
  apply nth_error_map_inv in Hg, Hn.
  destruct Hg as (pi & Epi & <-), Hn as (pj & Epj & <-).
  exists i, j, pi, pj. repeat split; auto.
  - apply (Hmin k). apply (map_nth_error fst k front H).
  - apply (Hmax k). apply (map_nth_error snd k front H).
  - intros Hk. apply (Hfirst_min k); [|exact Hk].
    apply (map_nth_error fst k front H).
  - intros Hk. apply (Hfirst_max k); [|exact Hk].
    apply (map_nth_error snd k front H).
Qed.

Lemma best_single_objective_witness :
  let front := [(-10, 100); (-8, 150)] in
  front <> [] /\
  exists i j best_gwp best_npv,
    min_gwp_index front = Some i /\ nth_error front i = Some best_gwp /\
    max_npv_index front = Some j /\ nth_error front j = Some best_npv /\
    (forall k q, nth_error front k = Some q ->
                 fst best_gwp <= fst q /\ snd q <= snd best_npv) /\
    (forall k q, nth_error front k = Some q ->
                 ((k < i)%nat -> fst best_gwp < fst q) /\
                 ((k < j)%nat -> snd q < snd best_npv)).
Proof.
  intros front.
  assert (Hne : front <> []) by discriminate.
  split; [exact Hne | exact (best_single_objective front Hne)].
Defined.

(** ** The knee point *)

Lemma euclidean_nonneg (u v : Point) : 0 <= radicand (euclidean u v).
Proof.
  unfold euclidean; simpl radicand.
  pose proof (Z.square_nonneg (fst u - fst v)).
  pose proof (Z.square_nonneg (snd u - snd v)). lia.
Qed.

(** The order kept on radicands is the order of the distances. *)
Lemma distance_value_le (a b : Distance) :
  distance_ltb b a = false -> (distance_value a <= distance_value b)%R.
Proof.
  unfold distance_ltb, distance_value. rewrite Z.ltb_ge. intros H.
  apply sqrt_le_1_alt, IZR_le, H.
Qed.

Lemma distance_value_lt (a b : Distance) :
  0 <= radicand a -> distance_ltb a b = true ->
  (distance_value a < distance_value b)%R.
Proof.
  unfold distance_ltb, distance_value. rewrite Z.ltb_lt. intros H0 H.
  apply sqrt_lt_1_alt. split; [apply (IZR_le 0), H0 | apply IZR_lt, H].
Qed.

Lemma distance_value_of_square (d : Distance) (n : Z) :
  0 <= n -> radicand d = n * n -> distance_value d = IZR n.
Proof.
  intros Hn Hd. unfold distance_value. rewrite Hd, mult_IZR.
  apply sqrt_square, (IZR_le 0), Hn.
Qed.

Lemma distances_map (front : list Point) (ideal : Point) :
  distances front ideal = map (fun p => euclidean p ideal) front.
Proof.
  unfold distances, pareto_GWP, pareto_NPV. rewrite combine_fst_snd. reflexivity.
Qed.

(** The ideal point of a non-empty front: the least gwp and the greatest npv
    found on it. *)
Lemma ideal_point_spec (front : list Point) :
  front <> [] ->
  exists ideal, ideal_point front = Some ideal /\
    In (fst ideal) (pareto_GWP front) /\ In (snd ideal) (pareto_NPV front) /\
    (forall q, In q front -> fst ideal <= fst q /\ snd q <= snd ideal).
Proof.
  intros Hne.
  destruct (argmin_spec (pareto_GWP front) (map_not_nil fst front Hne))
    as (i & g & _ & Hg & Hgi & Hmin & _).
  destruct (argmax_spec (pareto_NPV front) (map_not_nil snd front Hne))
    as (j & n & _ & Hn & Hnj & Hmax & _).
  exists (g, n). unfold ideal_point. rewrite Hg, Hn. simpl.
  split; [reflexivity|]. split; [eapply nth_error_In; eauto|].
  split; [eapply nth_error_In; eauto|].
  intros q Hq. apply In_nth_error in Hq. destruct Hq as [k Hk]. split.
  - apply (Hmin k). apply (map_nth_error fst k front Hk).
  - apply (Hmax k). apply (map_nth_error snd k front Hk).
Qed.

(** *** The order [np.argmin] scans float64 values by *)

Lemma rank_lt_irrefl (a : Z * Z * Z) : ~ rank_lt a a.
Proof. destruct a as [[a1 a2] a3]. simpl. lia. Qed.

Lemma rank_lt_trans (a b c : Z * Z * Z) :
  rank_lt a b -> rank_lt b c -> rank_lt a c.
Proof.
  destruct a as [[a1 a2] a3], b as [[b1 b2] b3], c as [[c1 c2] c3]. simpl. lia.
Qed.

Lemma rank_lt_neg_trans (a b c : Z * Z * Z) :
  ~ rank_lt a b -> ~ rank_lt b c -> ~ rank_lt a c.
Proof.
  destruct a as [[a1 a2] a3], b as [[b1 b2] b3], c as [[c1 c2] c3]. simpl. lia.
Qed.

(** The comparison of two numbers is the comparison of their ranks. *)
Lemma SFcompare_rank (a b : SpecFloat.spec_float) :
  a <> SpecFloat.S754_nan -> b <> SpecFloat.S754_nan ->
  match SpecFloat.SFcompare a b with
  | Some Lt => rank_lt (float_rank a) (float_rank b)
  | Some Eq => float_rank a = float_rank b
  | Some Gt => rank_lt (float_rank b) (float_rank a)
  | None => False
  end.
Proof.
  intros Ha Hb.
  destruct a as [sa|sa| |sa ma ea], b as [sb|sb| |sb mb eb];
    try congruence; try destruct sa; try destruct sb; simpl;
    try lia; try reflexivity;
    change (Pos.compare_cont Eq ma mb) with (Pos.compare ma mb);
    destruct (Z.compare_spec ea eb); destruct (Pos.compare_spec ma mb);
    simpl; subst; try reflexivity; lia.
Qed.

Lemma rank_nan_least (a : SpecFloat.spec_float) :
  ~ rank_lt (float_rank a) (float_rank SpecFloat.S754_nan) /\
  (a <> SpecFloat.S754_nan ->
   rank_lt (float_rank SpecFloat.S754_nan) (float_rank a)).
Proof.
  destruct a as [[]|[]| |[] m e]; simpl; split; try lia; congruence.
Qed.

Lemma SFeqb_refl (a : SpecFloat.spec_float) :
  a <> SpecFloat.S754_nan -> SpecFloat.SFeqb a a = true.
Proof.
  intros Ha. unfold SpecFloat.SFeqb. assert (H := SFcompare_rank a a Ha Ha).
  destruct (SpecFloat.SFcompare a a) as [[| |]|];
    try reflexivity; try contradiction;
    exfalso; apply (rank_lt_irrefl _ H).
Qed.

Lemma is_nan_spec (x : PrimFloat.float) :
  PrimFloat.is_nan x = true <-> FloatOps.Prim2SF x = SpecFloat.S754_nan.
Proof.
  unfold PrimFloat.is_nan. rewrite FloatAxioms.eqb_spec, negb_true_iff. split.
  - intros H. destruct (FloatOps.Prim2SF x) eqn:E; try reflexivity;
      rewrite SFeqb_refl in H by discriminate; discriminate H.
  - intros ->. reflexivity.
Qed.

(** [np_less] is the strict order of the ranks. *)
Lemma np_less_rank (x b : PrimFloat.float) :
  np_less x b = true <->
  rank_lt (float_rank (FloatOps.Prim2SF x)) (float_rank (FloatOps.Prim2SF b)).
Proof.
  unfold np_less.
  rewrite andb_true_iff, !negb_true_iff, FloatAxioms.leb_spec.
  rewrite <- not_true_iff_false, is_nan_spec.
  set (sx := FloatOps.Prim2SF x). set (sb := FloatOps.Prim2SF b).
  destruct (rank_nan_least sx) as [Hx1 Hx2], (rank_nan_least sb) as [Hb1 Hb2].
  assert (Hx : sx = SpecFloat.S754_nan \/ sx <> SpecFloat.S754_nan)
    by (destruct sx; auto; right; discriminate).
  split.
  - intros [Hb Hle]. unfold SpecFloat.SFleb in Hle.
    destruct Hx as [Hx | Hx]; [rewrite Hx; auto|].
    assert (H := SFcompare_rank sb sx Hb Hx).
    destruct (SpecFloat.SFcompare sb sx) as [[| |]|]; try discriminate Hle;
      [exact H | contradiction].
  - intros H.
    assert (Hb : sb <> SpecFloat.S754_nan) by (intros E; rewrite E in H; auto).
    split; [exact Hb|]. unfold SpecFloat.SFleb.
    destruct Hx as [Hx | Hx].
    + rewrite Hx. destruct sb; reflexivity.
    + assert (H' := SFcompare_rank sb sx Hb Hx).
      destruct (SpecFloat.SFcompare sb sx) as [[| |]|]; try reflexivity; exfalso.
      * rewrite H' in H. apply (rank_lt_irrefl _ H).
      * apply (rank_lt_irrefl _ (rank_lt_trans _ _ _ H H')).
Qed.

Lemma np_less_irrefl (a : PrimFloat.float) : np_less a a = false.
Proof.
  apply not_true_iff_false. rewrite np_less_rank. apply rank_lt_irrefl.
Qed.

Lemma np_less_trans (a b c : PrimFloat.float) :
  np_less a b = true -> np_less b c = true -> np_less a c = true.
Proof. rewrite !np_less_rank. apply rank_lt_trans. Qed.

Lemma np_less_neg_trans (a b c : PrimFloat.float) :
  np_less a b = false -> np_less b c = false -> np_less a c = false.
Proof.
  rewrite <- !not_true_iff_false, !np_less_rank. apply rank_lt_neg_trans.
Qed.

(** A NaN is below every number. *)
Lemma np_less_nan (x b : PrimFloat.float) :
  PrimFloat.is_nan x = true -> PrimFloat.is_nan b = false -> np_less x b = true.
Proof.
  intros Hx Hb. apply np_less_rank. apply is_nan_spec in Hx. rewrite Hx.
  apply rank_nan_least. intros E. apply is_nan_spec in E. congruence.
Qed.

(** Between numbers [np_less] is [<], the negation of [>=]. *)
Lemma np_less_numbers (x b : PrimFloat.float) :
  PrimFloat.is_nan x = false -> PrimFloat.is_nan b = false ->
  np_less x b = PrimFloat.ltb x b /\
  (np_less x b = false -> PrimFloat.leb b x = true).
Proof.
  intros Hx Hb. unfold np_less. rewrite Hb. simpl. split.
  - rewrite FloatAxioms.leb_spec, FloatAxioms.ltb_spec.
    unfold SpecFloat.SFleb, SpecFloat.SFltb.
    apply not_true_iff_false in Hx, Hb. rewrite is_nan_spec in Hx, Hb.
    assert (H1 := SFcompare_rank _ _ Hb Hx).
    assert (H2 := SFcompare_rank _ _ Hx Hb).
    destruct (SpecFloat.SFcompare (FloatOps.Prim2SF b) (FloatOps.Prim2SF x))
      as [[| |]|],
      (SpecFloat.SFcompare (FloatOps.Prim2SF x) (FloatOps.Prim2SF b))
      as [[| |]|];
      simpl; try reflexivity; try contradiction; exfalso.
    all: try (rewrite H1 in H2; apply (rank_lt_irrefl _ H2)).
    all: try (rewrite H2 in H1; apply (rank_lt_irrefl _ H1)).
    all: try (rewrite <- H2 in H1; apply (rank_lt_irrefl _ H1)).
    all: try (apply (rank_lt_irrefl _ (rank_lt_trans _ _ _ H1 H2))).
  - intros H. apply negb_false_iff in H. exact H.
Qed.

Lemma computed_distances_map (dot : Dot) (dtype : Dtype)
      (front : list Point) (ideal : Point) :
  computed_distances dot dtype front ideal
  = map (fun p => scipy_euclidean dot dtype p ideal) front.
Proof.
  unfold computed_distances, pareto_GWP, pareto_NPV.
  rewrite combine_fst_snd. reflexivity.
Qed.

(** *** The knee the cell selects *)




(** On the worked example the computed distances are 50 and 2 and the knee
    is the second row, for both column types and both ways of rounding the
    dot product. *)
Lemma end_to_end_example_float64 (dtype : Dtype) :
  let front := [(-10, 100); (-8, 150)] in
  scipy_euclidean rounded_dot dtype (-10, 100) (-10, 150) = float_of_Z 50 /\
  scipy_euclidean rounded_dot dtype (-8, 150) (-10, 150) = float_of_Z 2 /\
  scipy_euclidean fused_dot dtype (-10, 100) (-10, 150) = float_of_Z 50 /\
  scipy_euclidean fused_dot dtype (-8, 150) (-10, 150) = float_of_Z 2 /\
  knee_index_float64 rounded_dot dtype front = Some 1%nat /\
  knee_index_float64 fused_dot dtype front = Some 1%nat.
Proof. destruct dtype; repeat split; reflexivity. Qed.

(** With int64 columns the difference wraps around: below, the second row
    is 2^64 - 1 away from the ideal gwp, which int64 reads as -1, and becomes
    the knee; with float64 columns the first row is. *)
Lemma knee_int64_wraps :
  let front := [(- 2 ^ 63, 0); (2 ^ 63 - 1, 3)] in
  pareto_front front = front /\
  knee_index_float64 rounded_dot Int64 front = Some 1%nat /\
  knee_index_float64 rounded_dot Float64 front = Some 0%nat.
Proof. repeat split; reflexivity. Qed.

(** The rounding of the dot product can decide the knee: on the front below
    the second and the third row are at the same computed distance,
    200000001, when the squares are rounded before they are added, and the
    second row is farther when the addition is fused. *)
Lemma dot_rounding_decides :
  let front := [(0, 0); (2, 10); (200000001, 200000011)] in
  pareto_front front = front /\
  knee_index_float64 rounded_dot Float64 front = Some 1%nat /\
  knee_index_float64 fused_dot Float64 front = Some 2%nat.
Proof. repeat split; reflexivity. Qed.

(** The exact and the computed knee are defined on the same fronts. *)
Lemma knee_index_float64_defined (dot : Dot) (dtype : Dtype)
      (front : list Point) :
  knee_index_float64 dot dtype front = None <-> knee_index front = None.
Proof.
  unfold knee_index_float64, knee_index.
  destruct front as [|p l]; [simpl; tauto|].
  destruct (ideal_point (p :: l)) as [ideal|]; [|tauto].
  rewrite computed_distances_map, distances_map. simpl.
  split; intros H; discriminate H.
Qed.

(** ** The worked example *)


(** ** Which row an allocation is read from *)

Section Comprehension.
Context {A B : Type} (f : A -> option B).

Lemma comprehension_Forall2 (l : list A) (ys : list B) :
  comprehension f l = Some ys <-> Forall2 (fun x y => f x = Some y) l ys.
Proof.
  revert ys. induction l as [|x l IH]; intros ys; simpl.
  - split; [intros H; inversion H; constructor | intros H; inversion H; auto].
  - destruct (f x) as [y|] eqn:Ey.
    + destruct (comprehension f l) as [ys'|] eqn:Ec.
      * split.
        -- intros H; inversion H; subst. constructor; [exact Ey|].
           apply IH. reflexivity.
        -- intros H; inversion H; subst.
           assert (Some ys' = Some l') as E by (apply IH; assumption).
           congruence.
      * split; [discriminate|]. intros H; inversion H; subst.
        assert (None = Some l') as E by (apply IH; assumption). discriminate.
    + split; [discriminate|]. intros H; inversion H; subst. congruence.
Qed.

Lemma comprehension_total (l : list A) :
  (forall x, In x l -> f x <> None) -> exists ys, comprehension f l = Some ys.
Proof.
  induction l as [|x l IH]; simpl; intros H; [eauto|].
  destruct (f x) as [y|] eqn:Ey; [|exfalso; apply (H x); auto].
  destruct IH as [ys Hys]; [intros z Hz; apply H; auto|].
  rewrite Hys. eauto.
Qed.
End Comprehension.

Lemma Forall2_nth_left {A B : Type} (R : A -> B -> Prop)
      (l : list A) (ys : list B) (r : nat) (x : A) :
  Forall2 R l ys -> nth_error l r = Some x ->
  exists y, nth_error ys r = Some y /\ R x y.
Proof.
  intros H. revert r. induction H as [|a b l ys Hab _ IH]; intros r Hr.
  - destruct r; discriminate.
  - destruct r as [|r]; simpl in *; [inversion Hr; subst; eauto | auto].
Qed.

Lemma Forall2_In_right {A B : Type} (R : A -> B -> Prop)
      (l : list A) (ys : list B) (y : B) :
  Forall2 R l ys -> In y ys -> exists x, In x l /\ R x y.
Proof.
  intros H. induction H as [|a b l ys Hab _ IH]; simpl; [tauto|].
  intros [<- | Hy]; [eauto|]. destruct (IH Hy) as (x & Hx & Hxy). eauto.
Qed.

(** [list.index]: the position found holds the value, and no earlier
    position does. *)
Lemma index_first (x : Point) (l : list Point) (i : nat) :
  index point_eqb x l = Some i ->
  nth_error l i = Some x /\
  forall i', (i' < i)%nat -> nth_error l i' <> Some x.
Proof.
  revert i. induction l as [|y l IH]; intros i; simpl; [discriminate|].
  destruct (point_eqb y x) eqn:E.
  - intros H; inversion H; subst. apply point_eqb_eq in E. subst.
    split; [reflexivity | intros i' Hi'; lia].
  - destruct (index point_eqb x l) as [k|]; [|discriminate].
    intros H; inversion H; subst. destruct (IH k eq_refl) as [Hk Hfirst].
    split; [exact Hk|]. intros [|i'] Hi'; simpl.
    + intros Hy; inversion Hy; subst. rewrite point_eqb_refl in E. discriminate.
    + apply Hfirst. lia.
Qed.

Lemma index_found (x : Point) (l : list Point) :
  In x l -> index point_eqb x l <> None.
Proof.
  induction l as [|y l IH]; simpl; [tauto|].
  destruct (point_eqb y x) eqn:E; [discriminate|].
  intros [-> | Hx]; [rewrite point_eqb_refl in E; discriminate|].
  destruct (index point_eqb x l); [discriminate | exfalso; apply IH; auto].
Qed.

Lemma data_frame_nth (g n b v f : list Z) (r : nat) (g0 n0 b0 v0 f0 : Z) :
  nth_error g r = Some g0 -> nth_error n r = Some n0 ->
  nth_error b r = Some b0 -> nth_error v r = Some v0 ->
  nth_error f r = Some f0 ->
  nth_error (data_frame g n b v f) r = Some (mkRow g0 n0 b0 v0 f0).
Proof.
  revert g n b v f. induction r as [|r IH]; intros g n b v f;
    destruct g, n, b, v, f; simpl; try discriminate.
  - intros; congruence.
  - apply IH.
Qed.

Lemma data_frame_length (g n b v f : list Z) :
  length n = length g -> length b = length g -> length v = length g ->
  length f = length g -> length (data_frame g n b v f) = length g.
Proof.
  revert n b v f. induction g as [|g0 g IH]; intros n b v f;
    destruct n, b, v, f; simpl; try discriminate; auto.
Qed.

Lemma filtered_points_map (df : list Row) :
  filtered_points df = map (fun r => (gwp r, npv r)) (filtered_data df).
Proof.
  unfold filtered_points, GWP_filtered, NPV_filtered.
  induction (filtered_data df) as [|r l IH]; simpl; [reflexivity|].
  rewrite IH. reflexivity.
Qed.

(** Reading a column at the positions of [idxs]. *)
Lemma pick_column {F : Row -> Z} (fd : list Row) (idxs : list nat) :
  (forall i, In i idxs -> (i < length fd)%nat) ->
  exists vals, pick (map F fd) idxs = Some vals /\
    length vals = length idxs /\
    forall r i src, nth_error idxs r = Some i -> nth_error fd i = Some src ->
                    nth_error vals r = Some (F src).
Proof.
  intros Hin. unfold pick.
  destruct (comprehension_total (fun idx => nth_error (map F fd) idx) idxs)
    as [vals Hvals].
  { intros i Hi. apply nth_error_Some. rewrite length_map. auto. }
  exists vals. split; [exact Hvals|].
  apply comprehension_Forall2 in Hvals. split.
  - symmetry. eapply Forall2_length; eauto.
  - intros r i src Hr Hsrc.
    destruct (Forall2_nth_left _ _ _ r i Hvals Hr) as (y & Hy & Hiy).
    rewrite (map_nth_error F i fd Hsrc) in Hiy. congruence.
Qed.

(** C10: the reported table has one row per front member, and the row
    reported for the front member that is scenario [j] of the feasible rows
    is the feasible row at the first position holding the same (gwp, npv)
    pair; the rows reported for two scenarios of identical values are the
    same row; a scenario preceded by a scenario of identical values is never
    a position a reported row is read from. *)
Theorem allocation_attribution (df : list Row) :
  let fd := filtered_data df in
  let pts := filtered_points df in
  exists table idxs,
    pareto_df df = Some table /\
    optimal_indices pts (pareto_front pts) = Some idxs /\
    length table = length (pareto_front pts) /\
    (forall r j, nth_error (front_positions pts) r = Some j ->
       exists i, nth_error idxs r = Some i /\ (i <= j)%nat /\
         nth_error pts i = nth_error pts j /\
         (forall i', (i' < i)%nat -> nth_error pts i' <> nth_error pts j) /\
         nth_error fd i <> None /\
         nth_error table r = nth_error fd i) /\
    (forall r1 r2 j1 j2,
       nth_error (front_positions pts) r1 = Some j1 ->
       nth_error (front_positions pts) r2 = Some j2 ->
       nth_error pts j1 = nth_error pts j2 ->
       nth_error table r1 = nth_error table r2) /\
    (forall i j, (i < j)%nat -> (j < length pts)%nat ->
                 nth_error pts i = nth_error pts j -> ~ In j idxs).
Proof.
  intros fd pts. unfold pareto_df. fold pts.
  set (front := pareto_front pts).
  assert (Hpts : pts = map (fun r => (gwp r, npv r)) fd)
    by apply filtered_points_map.
  (* the index comprehension does not raise *)
  destruct (comprehension_total (fun ind => index point_eqb ind pts) front)
    as [idxs Hidxs].
  { intros ind Hind. apply index_found. apply pareto_front_In in Hind. tauto. }
  assert (Hrel := proj1 (comprehension_Forall2 _ _ _) Hidxs).
  assert (Hfirst : forall i, In i idxs ->
            exists p, nth_error pts i = Some p /\
                      forall i', (i' < i)%nat -> nth_error pts i' <> Some p).
  { intros i Hi. destruct (Forall2_In_right _ _ _ i Hrel Hi) as (p & _ & Hp).
    exists p. apply index_first. exact Hp. }
  assert (Hbound : forall i, In i idxs -> (i < length fd)%nat).
  { intros i Hi. destruct (Hfirst i Hi) as (p & Hp & _).
    assert (i < length pts)%nat by (apply nth_error_Some; congruence).
    rewrite Hpts, length_map in H. exact H. }
  (* neither do the three column reads *)
  destruct (@pick_column bioethanol fd idxs Hbound) as (pb & Hpb & Lb & Nb).
  destruct (@pick_column vanillin fd idxs Hbound) as (pv & Hpv & Lv & Nv).
  destruct (@pick_column furfural fd idxs Hbound) as (pf & Hpf & Lf & Nf).
  unfold optimal_indices. rewrite Hidxs.
  unfold bioethanol_filtered, vanillin_filtered, furfural_filtered.
  fold fd. rewrite Hpb, Hpv, Hpf.
  assert (Li : length idxs = length front)
    by (symmetry; eapply Forall2_length; eauto).
  set (table := data_frame (pareto_GWP front) (pareto_NPV front) pb pv pf).
  (* every reported row is read at the first position of its value *)
  assert (Hrows : forall r j, nth_error (front_positions pts) r = Some j ->
            exists i, nth_error idxs r = Some i /\ (i <= j)%nat /\
              nth_error pts i = nth_error pts j /\
              (forall i', (i' < i)%nat -> nth_error pts i' <> nth_error pts j) /\
              nth_error fd i <> None /\
              nth_error table r = nth_error fd i).
  { intros r j Hj.
    destruct (front_row_source pts r j Hj) as (p & Hr & Hjp & _).
    fold front in Hr.
    destruct (Forall2_nth_left _ _ _ r p Hrel Hr) as (i & Hi & Hpi).
    destruct (index_first p pts i Hpi) as [Hip Hmin].
    assert (Hsrc : exists src, nth_error fd i = Some src).
    { destruct (nth_error fd i) eqn:E; [eauto|].
      apply nth_error_None in E. specialize (Hbound i (nth_error_In _ _ Hi)). lia. }
    destruct Hsrc as [src Hsrc].
    exists i. split; [exact Hi|]. split.
    { destruct (Nat.le_gt_cases i j) as [Hle | Hgt]; [exact Hle|].
      exfalso. apply (Hmin j Hgt). exact Hjp. }
    split; [congruence|]. split; [rewrite Hjp; exact Hmin|].
    split; [congruence|]. rewrite Hsrc.
    assert (Hval : (gwp src, npv src) = p).
    { assert (Hmap := map_nth_error (fun r => (gwp r, npv r)) i fd Hsrc).
      rewrite <- Hpts in Hmap.
      assert (E : Some (gwp src, npv src) = Some p)
        by exact (eq_trans (eq_sym Hmap) Hip).
      inversion E. reflexivity. }
    replace (Some src)
      with (Some (mkRow (fst p) (snd p) (bioethanol src) (vanillin src)
                        (furfural src)))
      by (rewrite <- Hval; destruct src; reflexivity).
    apply data_frame_nth; eauto.
    + apply (map_nth_error fst r front Hr).
    + apply (map_nth_error snd r front Hr). }
  exists table, idxs. split; [reflexivity|]. split; [reflexivity|].
  split; [|split; [exact Hrows|split]].
  - unfold table, pareto_GWP, pareto_NPV.
    rewrite data_frame_length; rewrite ?length_map; try reflexivity;
      [rewrite Lb | rewrite Lv | rewrite Lf]; exact Li.
  - intros r1 r2 j1 j2 H1 H2 Heq.
    destruct (Hrows r1 j1 H1) as (i1 & _ & _ & E1 & F1 & _ & T1).
    destruct (Hrows r2 j2 H2) as (i2 & _ & _ & E2 & F2 & _ & T2).
    assert (i1 = i2) as ->; [|congruence].
    destruct (Nat.lt_trichotomy i1 i2) as [Hlt | [He | Hgt]]; [|exact He|].
    + exfalso. apply (F2 i1 Hlt). congruence.
    + exfalso. apply (F1 i2 Hgt). congruence.
  - intros i j Hij Hj Heq Hin.
    destruct (Hfirst j Hin) as (p & Hp & Hmin).
    apply (Hmin i Hij). congruence.
Qed.

(** Two feasible scenarios of identical (gwp, npv) and different
    allocations: both rows of the report show the first allocation. *)
Example allocation_attribution_twins :
  pareto_df [mkRow 1 1 60 30 10; mkRow 1 1 10 30 60]
  = Some [mkRow 1 1 60 30 10; mkRow 1 1 60 30 10].
Proof. reflexivity. Qed.

(** * Further properties of the Pareto stage *)

(** ** Emptiness *)

(** Every point of the input is matched or beaten on both objectives by a
    member of the front. *)
Lemma front_covers (pts : list Point) (p : Point) :
  In p pts ->
  exists q, In q (pareto_front pts) /\ fst q <= fst p /\ snd q >= snd p.
Proof.
  intros Hp. destruct (is_dominated p pts) eqn:E.
  - destruct (undominated_dominator pts p E) as (q & Hq & Hqf & Hd).
    apply dominates_iff in Hd. exists q. split; [|tauto].
    apply pareto_front_In. auto.
  - exists p. split; [apply pareto_front_In; auto | lia].
Qed.

Lemma pareto_front_nil_inv (pts : list Point) :
  pareto_front pts = [] -> pts = [].
Proof.
  destruct pts as [|p l]; [reflexivity|]. intros H. exfalso.
  destruct (front_covers (p :: l) p (or_introl eq_refl)) as (q & Hq & _).
  rewrite H in Hq. destruct Hq.
Qed.

(** X1: the front is empty only when the input is: a non-empty list of
    points always has a non-dominated member. *)
Theorem pareto_front_empty_iff (pts : list Point) :
  pareto_front pts = [] <-> pts = [].
Proof.
  split; [apply pareto_front_nil_inv | intros ->; reflexivity].
Qed.

Lemma filtered_points_nil (df : list Row) :
  filtered_points df = [] <-> forall r, In r df -> npv r <= 0.
Proof.
  rewrite filtered_points_map. unfold filtered_data. split.
  - intros H r Hr. destruct (npv r >? 0) eqn:E.
    + assert (Hin : In r (filter (fun r => npv r >? 0) df))
        by (apply filter_In; auto).
      destruct (filter (fun r => npv r >? 0) df); [destruct Hin | discriminate].
    + rewrite Z.gtb_ltb, Z.ltb_ge in E. exact E.
  - intros H. destruct (filter (fun r => npv r >? 0) df) as [|r l] eqn:E;
      [reflexivity|].
    assert (Hin : In r (filter (fun r => npv r >? 0) df))
      by (rewrite E; left; reflexivity).
    apply filter_In in Hin. destruct Hin as [Hin Hpos].
    specialize (H r Hin). rewrite Z.gtb_ltb, Z.ltb_lt in Hpos. lia.
Qed.

(** X2: run on a table, each of the three selectors raises exactly when no
    row of the table has a positive npv. *)
Theorem selectors_raise_iff_infeasible (df : list Row) :
  let front := pareto_front (filtered_points df) in
  let infeasible := forall r, In r df -> npv r <= 0 in
  (min_gwp_index front = None <-> infeasible) /\
  (max_npv_index front = None <-> infeasible) /\
  (knee_index front = None <-> infeasible).
Proof.
  intros front infeasible.
  assert (Hempty : front = [] <-> infeasible).
  { unfold front, infeasible. rewrite <- filtered_points_nil.
    split; [apply pareto_front_nil_inv | intros ->; reflexivity]. }
  rewrite <- Hempty.
  destruct front as [|p l]; simpl;
    repeat split; intros H; try reflexivity; discriminate H.
Qed.

(** ** The report *)

Lemma report_rows (fd : list Row) (pts front : list Point) :
  pts = map (fun r => (gwp r, npv r)) fd ->
  forall idxs pb pv pf,
    comprehension (fun ind => index point_eqb ind pts) front = Some idxs ->
    pick (map bioethanol fd) idxs = Some pb ->
    pick (map vanillin fd) idxs = Some pv ->
    pick (map furfural fd) idxs = Some pf ->
    Forall2 (fun p row => In row fd /\ (gwp row, npv row) = p) front
            (data_frame (pareto_GWP front) (pareto_NPV front) pb pv pf).
Proof.
  intros Hpts. unfold pick.
  induction front as [|p front IH]; intros idxs pb pv pf Hi Hb Hv Hf.
  - constructor.
  - simpl in Hi. destruct (index point_eqb p pts) as [i|] eqn:Ei; [|discriminate].
    destruct (comprehension _ front) as [idxs'|] eqn:Ec; [|discriminate].
    inversion Hi; subst idxs; clear Hi. simpl in Hb, Hv, Hf.
    destruct (nth_error (map bioethanol fd) i) as [b0|] eqn:Eb; [|discriminate].
    destruct (comprehension _ idxs') as [pb'|] eqn:Ecb in Hb; [|discriminate].
    destruct (nth_error (map vanillin fd) i) as [v0|] eqn:Ev; [|discriminate].
    destruct (comprehension _ idxs') as [pv'|] eqn:Ecv in Hv; [|discriminate].
    destruct (nth_error (map furfural fd) i) as [f0|] eqn:Ef; [|discriminate].
    destruct (comprehension _ idxs') as [pf'|] eqn:Ecf in Hf; [|discriminate].
    inversion Hb; inversion Hv; inversion Hf; subst. simpl.
    constructor; [|apply (IH idxs'); auto].
    apply nth_error_map_inv in Eb, Ev, Ef.
    destruct Eb as (src & Hsrc & <-), Ev as (src' & Hsrc' & <-),
             Ef as (src'' & Hsrc'' & <-).
    assert (src' = src) by congruence. assert (src'' = src) by congruence.
    subst src' src''.
    destruct (index_first p _ i Ei) as [Hp _].
    assert (Hmap := map_nth_error (fun r => (gwp r, npv r)) i fd Hsrc).
    assert (E : Some (gwp src, npv src) = Some p)
      by exact (eq_trans (eq_sym Hmap) Hp).
    inversion E; subst p. simpl. destruct src; simpl.
    split; [eapply nth_error_In; eauto | reflexivity].
Qed.

(** X3: every row of the reported table is a row of the input table, with
    its own allocation, has a positive npv, and is matched or beaten on both
    objectives by no feasible row of different (gwp, npv). *)
Theorem reported_rows_are_feasible_rows (df table : list Row) (row : Row) :
  pareto_df df = Some table -> In row table ->
  In row df /\ npv row > 0 /\
  forall other, In other df -> npv other > 0 ->
    ~ (gwp other <= gwp row /\ npv other >= npv row /\
       (gwp other, npv other) <> (gwp row, npv row)).
Proof.
  unfold pareto_df, optimal_indices. intros Hdf Hrow.
  set (pts := filtered_points df) in *.
  destruct (comprehension _ (pareto_front pts)) as [idxs|] eqn:Ei; [|discriminate].
  destruct (pick (bioethanol_filtered df) idxs) as [pb|] eqn:Eb; [|discriminate].
  destruct (pick (vanillin_filtered df) idxs) as [pv|] eqn:Ev; [|discriminate].
  destruct (pick (furfural_filtered df) idxs) as [pf|] eqn:Ef; [|discriminate].
  inversion Hdf; subst table; clear Hdf.
  assert (Hrows := report_rows (filtered_data df) pts (pareto_front pts)
                     (filtered_points_map df) idxs pb pv pf Ei Eb Ev Ef).
  destruct (Forall2_In_right _ _ _ row Hrows Hrow) as (p & Hp & Hfd & Hval).
  apply filter_In in Hfd. destruct Hfd as [Hin Hpos].
  rewrite Z.gtb_ltb, Z.ltb_lt in Hpos.
  split; [exact Hin|]. split; [lia|].
  intros other Ho Hopos (H1 & H2 & H3).
  apply pareto_front_In in Hp. destruct Hp as [_ Hnd].
  rewrite not_dominated_iff in Hnd.
  assert (Hother : In (gwp other, npv other) pts).
  { unfold pts. rewrite filtered_points_map.
    apply (in_map (fun r => (gwp r, npv r))). apply filter_In. split; [exact Ho|].
    rewrite Z.gtb_ltb, Z.ltb_lt. lia. }
  specialize (Hnd _ Hother). apply not_true_iff_false in Hnd. apply Hnd.
  apply dominates_iff. rewrite <- Hval. simpl. auto.
Qed.

Lemma reported_rows_are_feasible_rows_witness :
  let df := [mkRow (-10) 100 60 30 10; mkRow (-8) 150 50 30 20;
             mkRow (-5) 90 40 30 30; mkRow (-3) (-20) 30 30 40] in
  let table := [mkRow (-10) 100 60 30 10; mkRow (-8) 150 50 30 20] in
  let row := mkRow (-8) 150 50 30 20 in
  pareto_df df = Some table /\ In row table /\ In row df /\ npv row > 0.
Proof.
  intros df table row.
  assert (Hdf : pareto_df df = Some table) by reflexivity.
  assert (Hrow : In row table) by (right; left; reflexivity).
  split; [exact Hdf|]. split; [exact Hrow|].
  destruct (reported_rows_are_feasible_rows df table row Hdf Hrow)
    as (H1 & H2 & _).
  split; [exact H1 | exact H2].
Defined.

(** ** The front against the whole input *)

Lemma pareto_front_incl (pts : list Point) (p : Point) :
  In p (pareto_front pts) -> In p pts.
Proof. intros H. apply pareto_front_In in H. tauto. Qed.

(** X4: the ideal point computed on the front is the ideal point of the
    whole input: the least gwp and the greatest npv of the feasible points
    are both attained on the front (and both computations raise on an empty
    input). *)
Theorem ideal_point_of_front (pts : list Point) :
  ideal_point (pareto_front pts) = ideal_point pts.
Proof.
  destruct pts as [|p0 l] eqn:Epts; [reflexivity|]. rewrite <- Epts.
  assert (Hne : pts <> []) by (rewrite Epts; discriminate).
  assert (Hfne : pareto_front pts <> [])
    by (intros E; apply Hne, pareto_front_nil_inv, E).
  destruct (ideal_point_spec pts Hne) as ([g n] & -> & Hg & Hn & Hbox).
  destruct (ideal_point_spec _ Hfne) as ([g' n'] & -> & Hg' & Hn' & Hbox').
  simpl in *. unfold pareto_GWP, pareto_NPV in *.
  apply in_map_iff in Hg, Hn, Hg', Hn'.
  destruct Hg as (pg & <- & Hpg), Hn as (pn & <- & Hpn).
  destruct Hg' as (qg & <- & Hqg), Hn' as (qn & <- & Hqn).
  destruct (front_covers pts pg Hpg) as (cg & Hcg & Hcg1 & _).
  destruct (front_covers pts pn Hpn) as (cn & Hcn & _ & Hcn2).
  assert (H1 := proj1 (Hbox qg (pareto_front_incl _ _ Hqg))).
  assert (H2 := proj2 (Hbox qn (pareto_front_incl _ _ Hqn))).
  assert (H3 := proj1 (Hbox' cg Hcg)).
  assert (H4 := proj2 (Hbox' cn Hcn)).
  simpl in *. f_equal. f_equal; lia.
Qed.

(** X5: along the front the two objectives trade off: of two members, the
    one with the smaller gwp has the smaller npv, and members of equal gwp
    have equal npv. *)
Theorem front_trade_off (pts : list Point) (a b : Point) :
  In a (pareto_front pts) -> In b (pareto_front pts) ->
  (fst a < fst b -> snd a < snd b) /\ (fst a = fst b -> snd a = snd b).
Proof.
  intros Ha Hb. apply pareto_front_In in Ha, Hb.
  destruct Ha as [Ha Hda], Hb as [Hb Hdb].
  rewrite not_dominated_iff in Hda, Hdb.
  assert (Hab := Hdb a Ha). assert (Hba := Hda b Hb).
  apply not_true_iff_false in Hab, Hba. rewrite dominates_iff in Hab, Hba.
  split.
  - intros Hlt. destruct (Z.lt_ge_cases (snd a) (snd b)) as [H | H]; [exact H|].
    exfalso. apply Hab. repeat split; try lia. intros ->. lia.
  - intros Heq. destruct (Z.lt_trichotomy (snd a) (snd b)) as [H | [H | H]];
      [|exact H|]; exfalso.
    + apply Hba. repeat split; try lia. intros ->. lia.
    + apply Hab. repeat split; try lia. intros ->. lia.
Qed.

Lemma front_trade_off_witness :
  let pts := [(-10, 100); (-8, 150); (-5, 90); (-8, 80)] in
  In (-10, 100) (pareto_front pts) /\ In (-8, 150) (pareto_front pts) /\
  (fst (-10, 100) < fst (-8, 150) -> snd (-10, 100) < snd (-8, 150)).
Proof.
  intros pts.
  assert (Ha : In (-10, 100) (pareto_front pts)) by (simpl; auto).
  assert (Hb : In (-8, 150) (pareto_front pts)) by (simpl; auto).
  split; [exact Ha|]. split; [exact Hb|].
  exact (proj1 (front_trade_off pts (-10, 100) (-8, 150) Ha Hb)).
Defined.

(** X6: two inputs holding the same points, in whatever order and however
    many times, have fronts holding the same points. *)
Theorem pareto_front_same_points (pts pts' : list Point) :
  (forall p, In p pts <-> In p pts') ->
  forall p, In p (pareto_front pts) <-> In p (pareto_front pts').
Proof.
  intros Hsame p. rewrite !pareto_front_In, !not_dominated_iff, Hsame.
  split; intros [Hp Hd]; (split; [exact Hp|]); intros o Ho;
    apply Hd, Hsame, Ho.
Qed.

Lemma pareto_front_same_points_witness :
  let pts := [(-10, 100); (-8, 150); (-5, 90)] in
  let pts' := [(-5, 90); (-8, 150); (-10, 100); (-8, 150)] in
  (forall p, In p pts <-> In p pts') /\
  (In (-8, 150) (pareto_front pts) <-> In (-8, 150) (pareto_front pts')).
Proof.
  intros pts pts'.
  assert (Hsame : forall p, In p pts <-> In p pts').
  { intros p. simpl. tauto. }
  split; [exact Hsame | exact (pareto_front_same_points pts pts' Hsame _)].
Defined.

Lemma is_dominated_insert (l1 l2 : list Point) (p q : Point) :
  is_dominated p (l1 ++ l2) = true ->
  is_dominated q (l1 ++ p :: l2) = is_dominated q (l1 ++ l2).
Proof.
  intros Hp. apply is_dominated_iff in Hp. destruct Hp as (d & Hd & Hdp).
  destruct (is_dominated q (l1 ++ l2)) eqn:E.
  - apply is_dominated_iff in E. destruct E as (o & Ho & Hoq).
    apply is_dominated_iff. exists o. split; [|exact Hoq].
    apply in_app_iff in Ho. apply in_app_iff. simpl. tauto.
  - apply not_true_iff_false. intros H. apply not_true_iff_false in E. apply E.
    apply is_dominated_iff in H. destruct H as (o & Ho & Hoq).
    apply is_dominated_iff. apply in_app_iff in Ho. simpl in Ho.
    destruct Ho as [Ho | [<- | Ho]].
    + exists o. split; [apply in_app_iff; auto | exact Hoq].
    + exists d. split; [exact Hd | eapply dominates_trans; eauto].
    + exists o. split; [apply in_app_iff; auto | exact Hoq].
Qed.

(** X7: a point dominated by a point of the input can be added anywhere in
    the input without changing the front. *)
Theorem pareto_front_insert_dominated (l1 l2 : list Point) (p : Point) :
  is_dominated p (l1 ++ l2) = true ->
  pareto_front (l1 ++ p :: l2) = pareto_front (l1 ++ l2).
Proof.
  intros Hp. unfold pareto_front.
  rewrite (filter_ext _ (fun q => negb (is_dominated q (l1 ++ l2))))
    by (intros q; rewrite (is_dominated_insert l1 l2 p q Hp); reflexivity).
  rewrite !filter_app. simpl. rewrite Hp. reflexivity.
Qed.

Lemma pareto_front_insert_dominated_witness :
  let l1 := [(-10, 100); (-8, 150)] in
  let l2 := [(-5, 90)] in
  is_dominated (-8, 80) (l1 ++ l2) = true /\
  pareto_front (l1 ++ (-8, 80) :: l2) = pareto_front (l1 ++ l2).
Proof.
  intros l1 l2.
  assert (H : is_dominated (-8, 80) (l1 ++ l2) = true) by reflexivity.
  split; [exact H | exact (pareto_front_insert_dominated l1 l2 (-8, 80) H)].
Defined.



(** ** Copies and order *)

Lemma filter_copies (f : Point -> bool) (l : list Point) (p : Point) :
  f p = true -> filter (point_eqb p) (filter f l) = filter (point_eqb p) l.
Proof.
  intros Hf. induction l as [|x l IH]; simpl; [reflexivity|].
  destruct (point_eqb p x) eqn:E.
  - apply point_eqb_eq in E. subst x. rewrite Hf. simpl.
    rewrite point_eqb_refl, IH. reflexivity.
  - destruct (f x); simpl; [rewrite E|]; exact IH.
Qed.

(** X9: the front keeps every copy of a point it keeps: a non-dominated
    (gwp, npv) pair occurs on the front as many times as in the input. *)
Theorem pareto_front_keeps_copies (pts : list Point) (p : Point) :
  In p (pareto_front pts) ->
  filter (point_eqb p) (pareto_front pts) = filter (point_eqb p) pts.
Proof.
  intros Hp. apply pareto_front_In in Hp. destruct Hp as [_ Hp].
  unfold pareto_front.
  apply (filter_copies (fun q => negb (is_dominated q pts))).
  rewrite Hp. reflexivity.
Qed.

Lemma pareto_front_keeps_copies_witness :
  let pts := [(-8, 150); (-5, 90); (-8, 150); (-8, 80)] in
  In (-8, 150) (pareto_front pts) /\
  filter (point_eqb (-8, 150)) (pareto_front pts) = [(-8, 150); (-8, 150)].
Proof.
  intros pts.
  assert (H : In (-8, 150) (pareto_front pts)) by (simpl; auto).
  split; [exact H|].
  rewrite (pareto_front_keeps_copies pts (-8, 150) H). reflexivity.
Defined.

Lemma kept_positions_increase {A : Type} (f : A -> bool) (l : list A)
      (s r1 r2 j1 j2 : nat) :
  (r1 < r2)%nat ->
  nth_error (map fst (filter (fun ip => f (snd ip))
                             (combine (seq s (length l)) l))) r1 = Some j1 ->
  nth_error (map fst (filter (fun ip => f (snd ip))
                             (combine (seq s (length l)) l))) r2 = Some j2 ->
  (j1 < j2)%nat.
Proof.
  revert s r1 r2. induction l as [|x l IH]; intros s r1 r2 Hr H1 H2; simpl in *.
  - destruct r1; discriminate H1.
  - destruct (f x); simpl in *; [|eapply IH; eauto].
    destruct r2 as [|r2]; [lia|]. destruct r1 as [|r1]; simpl in *.
    + inversion H1; subst j1. apply nth_error_In, in_map_iff in H2.
      destruct H2 as ([j y] & Hj & Hin). simpl in Hj. subst j.
      apply filter_In in Hin. destruct Hin as [Hin _].
      apply combine_seq_In in Hin. lia.
    + apply (IH (S s) r1 r2); auto. lia.
Qed.

(** X10: the rows of the front follow the order of the input and no
    scenario is listed twice: a later row of the front is a later scenario
    of the input, and each row holds the values of its scenario. *)
Theorem pareto_front_keeps_order (pts : list Point) (r1 r2 j1 j2 : nat) :
  (r1 < r2)%nat ->
  nth_error (front_positions pts) r1 = Some j1 ->
  nth_error (front_positions pts) r2 = Some j2 ->
  (j1 < j2)%nat /\
  nth_error (pareto_front pts) r1 = nth_error pts j1 /\
  nth_error (pareto_front pts) r2 = nth_error pts j2.
Proof.
  intros Hr H1 H2. split.
  - exact (kept_positions_increase
             (fun p => negb (is_dominated p pts)) pts 0 r1 r2 j1 j2 Hr H1 H2).
  - destruct (front_row_source pts r1 j1 H1) as (p1 & Hf1 & Hp1 & _).
    destruct (front_row_source pts r2 j2 H2) as (p2 & Hf2 & Hp2 & _).
    split; congruence.
Qed.

Lemma pareto_front_keeps_order_witness :
  let pts := [(-10, 100); (-5, 90); (-8, 150); (-8, 80)] in
  nth_error (front_positions pts) 0 = Some 0%nat /\
  nth_error (front_positions pts) 1 = Some 2%nat /\
  nth_error (pareto_front pts) 1 = nth_error pts 2.
Proof.
  intros pts.
  assert (H1 : nth_error (front_positions pts) 0 = Some 0%nat) by reflexivity.
  assert (H2 : nth_error (front_positions pts) 1 = Some 2%nat) by reflexivity.
  split; [exact H1|]. split; [exact H2|].
  exact (proj2 (proj2 (pareto_front_keeps_order pts 0 1 0 2
                         (Nat.lt_0_succ 0) H1 H2))).
Defined.

(** ** The printed configurations *)

Lemma best_single_objective_positions (front : list Point) :
  front <> [] ->
  exists i j pi pj,
    min_gwp_index front = Some i /\ nth_error front i = Some pi /\
    max_npv_index front = Some j /\ nth_error front j = Some pj /\
    forall q, In q front -> fst pi <= fst q /\ snd q <= snd pj.
Proof.
  intros Hne.
  destruct (argmin_spec (pareto_GWP front) (map_not_nil fst front Hne))
    as (i & g & Hi & _ & Hg & Hmin & _).
  destruct (argmax_spec (pareto_NPV front) (map_not_nil snd front Hne))
    as (j & n & Hj & _ & Hn & Hmax & _).
  unfold pareto_GWP, pareto_NPV in *.
  apply nth_error_map_inv in Hg, Hn.
  destruct Hg as (pi & Epi & <-), Hn as (pj & Epj & <-).
  exists i, j, pi, pj. repeat (split; [assumption|]).
  intros q Hq. apply In_nth_error in Hq. destruct Hq as [k Hk]. split.
  - apply (Hmin k). apply (map_nth_error fst k front Hk).
  - apply (Hmax k). apply (map_nth_error snd k front Hk).
Qed.

(** X20: on a table, the row printed as lowest-GWP configuration is a row of
    the table with positive npv whose gwp is the least among all rows with
    positive npv, and the row printed as highest-NPV configuration is one
    whose npv is the greatest among them; neither lookup is out of range. *)
Theorem printed_extremes (df table : list Row) (i j : nat) :
  pareto_df df = Some table ->
  min_gwp_index (pareto_front (filtered_points df)) = Some i ->
  max_npv_index (pareto_front (filtered_points df)) = Some j ->
  exists lowest highest,
    nth_error table i = Some lowest /\ nth_error table j = Some highest /\
    In lowest df /\ In highest df /\ npv lowest > 0 /\ npv highest > 0 /\
    forall other, In other df -> npv other > 0 ->
                  gwp lowest <= gwp other /\ npv other <= npv highest.
Proof.
  unfold pareto_df, optimal_indices. intros Hdf Hi Hj.
  set (pts := filtered_points df) in *.
  destruct (comprehension _ (pareto_front pts)) as [idxs|] eqn:Ei; [|discriminate].
  destruct (pick (bioethanol_filtered df) idxs) as [pb|] eqn:Eb; [|discriminate].
  destruct (pick (vanillin_filtered df) idxs) as [pv|] eqn:Ev; [|discriminate].
  destruct (pick (furfural_filtered df) idxs) as [pf|] eqn:Ef; [|discriminate].
  inversion Hdf; subst table; clear Hdf.
  assert (Hrows := report_rows (filtered_data df) pts (pareto_front pts)
                     (filtered_points_map df) idxs pb pv pf Ei Eb Ev Ef).
  assert (Hne : pareto_front pts <> []).
  { intros E. rewrite E in Hi. discriminate Hi. }
  destruct (best_single_objective_positions (pareto_front pts) Hne)
    as (i' & j' & pi & pj & Hi' & Hpi & Hj' & Hpj & Hbest).
  assert (i' = i) by congruence. assert (j' = j) by congruence. subst i' j'.
  destruct (Forall2_nth_left _ _ _ i pi Hrows Hpi) as (lowest & Hl & Hlin & Hlv).
  destruct (Forall2_nth_left _ _ _ j pj Hrows Hpj) as (highest & Hh & Hhin & Hhv).
  apply filter_In in Hlin, Hhin.
  destruct Hlin as [Hlin Hlpos], Hhin as [Hhin Hhpos].
  rewrite Z.gtb_ltb, Z.ltb_lt in Hlpos, Hhpos.
  exists lowest, highest. repeat (split; [first [assumption | lia]|]).
  intros other Ho Hopos.
  assert (Hother : In (gwp other, npv other) pts).
  { unfold pts. rewrite filtered_points_map.
    apply (in_map (fun r => (gwp r, npv r))). apply filter_In. split; [exact Ho|].
    rewrite Z.gtb_ltb, Z.ltb_lt. lia. }
  destruct (front_covers pts _ Hother) as (q & Hq & Hq1 & Hq2).
  destruct (Hbest q Hq) as [Hb1 Hb2]. simpl in *.
  rewrite <- Hlv in Hb1. rewrite <- Hhv in Hb2. simpl in *. lia.
Qed.

Lemma printed_extremes_witness :
  let df := [mkRow (-10) 100 60 30 10; mkRow (-8) 150 50 30 20;
             mkRow (-5) 90 40 30 30; mkRow (-12) (-20) 30 30 40] in
  let table := [mkRow (-10) 100 60 30 10; mkRow (-8) 150 50 30 20] in
  pareto_df df = Some table /\
  min_gwp_index (pareto_front (filtered_points df)) = Some 0%nat /\
  max_npv_index (pareto_front (filtered_points df)) = Some 1%nat /\
  exists lowest highest,
    nth_error table 0 = Some lowest /\ nth_error table 1 = Some highest /\
    In lowest df /\ In highest df /\ npv lowest > 0 /\ npv highest > 0 /\
    forall other, In other df -> npv other > 0 ->
                  gwp lowest <= gwp other /\ npv other <= npv highest.
Proof.
  intros df table.
  assert (H1 : pareto_df df = Some table) by reflexivity.
  assert (H2 : min_gwp_index (pareto_front (filtered_points df)) = Some 0%nat)
    by reflexivity.
  assert (H3 : max_npv_index (pareto_front (filtered_points df)) = Some 1%nat)
    by reflexivity.
  split; [exact H1|]. split; [exact H2|]. split; [exact H3|].
  exact (printed_extremes df table 0 1 H1 H2 H3).
Defined.

(** * Properties of the LCA object *)

Import stdpp.base stdpp.option stdpp.list stdpp.gmap stdpp.strings.
Import LCA.
#[local] Open Scope Z_scope.


(** ** The guard of [analyze_lca] *)

Lemma key_in_empty {V : Type} (k : PyKey) : key_in k (∅ : gmap string V) = false.
Proof.
  destruct k as [s|t]; simpl; [|reflexivity].
  apply bool_decide_eq_false. rewrite lookup_empty. intros [v Hv]. discriminate.
Qed.

Lemma analyze_lca_assert_fails (lca_score : ImpactEngine) (fuel : nat) (k : PyKey)
      (n : nat) (self : biorefinery_LCA) :
  key_in k (LCA_results_dict self) = false ->
  analyze_lca lca_score fuel k n self
  = (Raised (AssertionError "This method is not in your LCIA method list!"),
     set_analyze_args k n self).
Proof.
  intros H. unfold analyze_lca, bind, modify, get; simpl. rewrite H. reflexivity.
Qed.

(** Once the guard is passed the flag is already set, so the loop is left at
    its first test, whatever the fuel. *)
Lemma analyze_lca_assert_passes (lca_score : ImpactEngine) (fuel : nat) (k : PyKey)
      (n : nat) (self : biorefinery_LCA) :
  key_in k (LCA_results_dict self) = true ->
  analyze_lca lca_score fuel k n self
  = (Returned tt,
     set_grouped (ByList ∅) (set_analysis_done true (set_analyze_args k n self))).
Proof.
  intros H. unfold analyze_lca, bind, modify, get; simpl. rewrite H. simpl.
  destruct fuel; reflexivity.
Qed.

(** C9: when no impact result has been stored yet, or when the argument is a
    method for which no functional unit holds a result, [analyze_lca] raises
    an AssertionError; the flag [analysis_done], the grouped results and the
    stored scores are left as they were. *)
Theorem analyze_lca_fail_fast (lca_score : ImpactEngine) (fuel : nat) (k : PyKey)
        (n : nat) (self : biorefinery_LCA) :
  LCA_results_dict self = ∅ \/
  (exists m, k = KTuple m /\
             forall fu scores, LCA_results_dict self !! fu = Some scores ->
                               scores !! m = None) ->
  exists msg self',
    analyze_lca lca_score fuel k n self = (Raised (AssertionError msg), self') /\
    analysis_done self' = analysis_done self /\
    techno_impact_results_grouped self' = techno_impact_results_grouped self /\
    LCA_results_dict self' = LCA_results_dict self.
Proof.
  intros H.
  assert (Hk : key_in k (LCA_results_dict self) = false).
  { destruct H as [-> | (m & -> & _)]; [apply key_in_empty | reflexivity]. }
  eexists _, _. split; [apply analyze_lca_assert_fails, Hk|].
  repeat split.
Qed.

Lemma analyze_lca_fail_fast_witness :
  let self := Sample.after_calc in
  let k := KTuple ["CML 2001 (obsolete)"; "climate change"; "GWP 100a"]%string in
  (exists m, k = KTuple m /\
             forall fu scores, LCA_results_dict self !! fu = Some scores ->
                               scores !! m = None) /\
  exists msg self',
    analyze_lca Sample.lca_score 1 k 5 self
    = (Raised (AssertionError msg), self') /\
    analysis_done self' = analysis_done self /\
    techno_impact_results_grouped self' = techno_impact_results_grouped self /\
    LCA_results_dict self' = LCA_results_dict self.
Proof.
  intros self k.
  assert (H : exists m, k = KTuple m /\
             forall fu scores, LCA_results_dict self !! fu = Some scores ->
                               scores !! m = None).
  { eexists. split; [reflexivity|]. intros fu scores Hfu.
    change (LCA_results_dict self)
      with (<[Sample.fu_name := {[Sample.global_warming := 1]}]>
              (∅ : gmap string (gmap Method Z))) in Hfu.
    destruct (decide (Sample.fu_name = fu)) as [<- | Hne].
    - rewrite lookup_insert_eq in Hfu. inversion Hfu; subst. reflexivity.
    - rewrite lookup_insert_ne, lookup_empty in Hfu by exact Hne. discriminate. }
  split; [exact H|].
  exact (analyze_lca_fail_fast Sample.lca_score 1 k 5 self (or_intror H)).
Defined.

(** ** The grouping statements, run on their own *)

Lemma set_grouped_same (g : Grouped) (self : biorefinery_LCA) :
  techno_impact_results_grouped self = Some g -> set_grouped g self = self.
Proof. destruct self; simpl. intros ->. reflexivity. Qed.

Lemma group_exchange_appends (lca_score : ImpactEngine) (k : PyKey)
      (exc : Exchange) (self : biorefinery_LCA)
      (lists : gmap string (list Z)) (score : Z) (tag : string) :
  techno_impact_results_grouped self = Some (ByList lists) ->
  lca_score (input exc) (amount exc) k = Some score ->
  group_tag exc = Some tag ->
  group_exchange lca_score k exc self
  = (Returned tt, set_grouped (ByList (append_score tag score lists)) self).
Proof.
  intros Hg Hs Ht. unfold group_exchange, bind, get, from_option.
  rewrite Hs. simpl. rewrite Hg. simpl. rewrite Ht. reflexivity.
Qed.

Lemma tag_scores_cons (lca_score : ImpactEngine) (k : PyKey) (t : string)
      (exc : Exchange) (rest : list Exchange) (score : Z) (tag : string) :
  lca_score (input exc) (amount exc) k = Some score ->
  group_tag exc = Some tag ->
  tag_scores lca_score k t (exc :: rest)
  = if decide (tag = t) then score :: tag_scores lca_score k t rest
    else tag_scores lca_score k t rest.
Proof.
  intros Hs Ht. unfold tag_scores. simpl. rewrite Ht, Hs.
  destruct (decide (Some tag = Some t)) as [E | E];
    destruct (decide (tag = t)) as [E' | E']; try reflexivity.
  - inversion E. contradiction.
  - subst. contradiction.
Qed.

(** The [for] loop leaves, in every bucket, the scores of the exchanges
    carrying its tag, after what the bucket held. *)
Lemma group_loop (lca_score : ImpactEngine) (k : PyKey) (excs : list Exchange) :
  Forall (fun exc => is_Some (lca_score (input exc) (amount exc) k) /\
                     is_Some (group_tag exc)) excs ->
  forall (self : biorefinery_LCA) (lists : gmap string (list Z)),
    techno_impact_results_grouped self = Some (ByList lists) ->
    exists lists',
      for_each excs (group_exchange lca_score k) self
      = (Returned tt, set_grouped (ByList lists') self) /\
      forall t, lists' !! t =
                if decide (lists !! t = None /\ tag_scores lca_score k t excs = [])
                then None
                else Some (default [] (lists !! t) ++ tag_scores lca_score k t excs).
Proof.
  induction 1 as [|exc rest [[score Hs] [tag Ht]] _ IH]; intros self lists Hg.
  - exists lists. split.
    + simpl. unfold ret. rewrite set_grouped_same; auto.
    + intros t. change (tag_scores lca_score k t []) with (@nil Z).
      rewrite app_nil_r. case_decide as Hd; [tauto|].
      destruct (lists !! t) as [l|]; [reflexivity | tauto].
  - destruct (IH (set_grouped (ByList (append_score tag score lists)) self)
                 (append_score tag score lists) eq_refl) as (lists' & Hrun & Hl).
    exists lists'. split.
    + simpl. unfold bind at 1.
      rewrite (group_exchange_appends _ _ _ _ lists score tag Hg Hs Ht).
      rewrite Hrun. reflexivity.
    + intros t. rewrite Hl, (tag_scores_cons _ _ _ _ _ score tag Hs Ht).
      unfold append_score. destruct (decide (tag = t)) as [-> | Hne].
      * rewrite lookup_insert_eq.
        rewrite !decide_False
          by (intros [Hn1 Hn2]; first [discriminate Hn1 | discriminate Hn2]).
        simpl. rewrite <- app_assoc. reflexivity.
      * rewrite lookup_insert_ne by exact Hne. reflexivity.
Qed.


(** ** What [analyze_lca] does *)

(** A method is never a key of [LCA_results_dict]: the assertion fails for
    every method, evaluated or not. *)
Lemma analyze_lca_rejects_methods (lca_score : ImpactEngine) (fuel : nat)
      (m : Method) (n : nat) (self : biorefinery_LCA) :
  fst (analyze_lca lca_score fuel (KTuple m) n self)
  = Raised (AssertionError "This method is not in your LCIA method list!").
Proof. rewrite analyze_lca_assert_fails; reflexivity. Qed.

(** Whatever the arguments, [analyze_lca] either raises at its assertion or
    returns with the empty [defaultdict(list)] it has just created: the
    grouping statements are not reached. *)
Lemma analyze_lca_never_aggregates (lca_score : ImpactEngine) (fuel : nat)
      (k : PyKey) (n : nat) (self : biorefinery_LCA) :
  exists out self',
    analyze_lca lca_score fuel k n self = (out, self') /\
    ((out = Raised (AssertionError "This method is not in your LCIA method list!")
      /\ techno_impact_results_grouped self'
         = techno_impact_results_grouped self) \/
     (out = Returned tt
      /\ techno_impact_results_grouped self' = Some (ByList ∅))).
Proof.
  destruct (key_in k (LCA_results_dict self)) eqn:E.
  - eexists _, _. split; [apply analyze_lca_assert_passes, E|]. right. auto.
  - eexists _, _. split; [apply analyze_lca_assert_fails, E|]. left. auto.
Qed.

(** C8, on the sample inventory: the method was evaluated for the functional
    unit, whose activity has two exchanges tagged "energy" (scores 5 and 7)
    and one tagged "utilities" (score 2).  Called with the method,
    [analyze_lca] raises; called with the name of the functional unit it
    returns with no bucket at all; the grouping statements, run on their own,
    give "energy": 12 and "utilities": 2. *)
Theorem analyze_lca_skips_aggregation :
  let self := Sample.after_calc in
  let method := KTuple Sample.global_warming in
  LCA_results_dict self !! Sample.fu_name
  = Some {[Sample.global_warming := 1]} /\
  FU_activity self = Some Sample.fu_activity /\
  fst (analyze_lca Sample.lca_score 1 method 5 self)
  = Raised (AssertionError "This method is not in your LCIA method list!") /\
  (forall fuel,
     fst (analyze_lca Sample.lca_score fuel (KStr Sample.fu_name) 5 self)
     = Returned tt /\
     techno_impact_results_grouped
       (snd (analyze_lca Sample.lca_score fuel (KStr Sample.fu_name) 5 self))
     = Some (ByList ∅)) /\
  techno_impact_results_grouped
    (snd (aggregate_exchanges Sample.lca_score method
                              (set_grouped (ByList ∅) self)))
  = Some (BySum {["energy"%string := 12; "utilities"%string := 2]}).
Proof.
  intros self method.
  split; [reflexivity|]. split; [reflexivity|]. split; [reflexivity|]. split.
  - intros fuel.
    rewrite (analyze_lca_assert_passes Sample.lca_score fuel
               (KStr Sample.fu_name) 5 self eq_refl).
    split; reflexivity.
  - reflexivity.
Qed.

(** * Further properties of the LCA object *)

(** ** The grouping statements *)


(** A loop that has run through [l] goes on with what follows [l]. *)
Lemma for_each_app {A : Type} (l l' : list A) (body : A -> M unit)
      (s s' : biorefinery_LCA) :
  for_each l body s = (Returned tt, s') ->
  for_each (l ++ l') body s = for_each l' body s'.
Proof.
  revert s. induction l as [|x l IH]; intros s H; simpl in *.
  - unfold ret in H. congruence.
  - unfold bind in *. destruct (body x s) as [[[]|e] s1]; [|discriminate H].
    apply IH. exact H.
Qed.

(** X11: the first exchange without a [group_tag] stops the grouping
    statements with a KeyError; the buckets then hold, unsummed, the scores
    of the exchanges before it. *)
Theorem aggregate_exchanges_untagged (lca_score : ImpactEngine) (k : PyKey)
        (self : biorefinery_LCA) (act : Activity)
        (pre post : list Exchange) (exc : Exchange) :
  FU_activity self = Some act ->
  techno_impact_results_grouped self = Some (ByList ∅) ->
  technosphere act = pre ++ exc :: post ->
  Forall (fun exc => is_Some (lca_score (input exc) (amount exc) k) /\
                     is_Some (group_tag exc)) pre ->
  is_Some (lca_score (input exc) (amount exc) k) ->
  group_tag exc = None ->
  exists lists,
    aggregate_exchanges lca_score k self
    = (Raised KeyError, set_grouped (ByList lists) self) /\
    forall t, default [] (lists !! t) = tag_scores lca_score k t pre.
Proof.
  intros Hact Hg Htech Hpre [score Hs] Htag.
  destruct (group_loop lca_score k pre Hpre self ∅ Hg) as (lists & Hrun & Hl).
  exists lists. split.
  - unfold aggregate_exchanges, bind, get, from_option. rewrite Hact. simpl.
    rewrite Htech. clear Htech Hact.
    unfold bind. rewrite (for_each_app _ _ _ _ _ Hrun). simpl. unfold bind at 1.
    unfold group_exchange, bind, get, from_option. rewrite Hs. simpl.
    rewrite Htag. reflexivity.
  - intros t. rewrite Hl, lookup_empty. case_decide as Hd.
    + destruct Hd as [_ ->]. reflexivity.
    + reflexivity.
Qed.

Lemma aggregate_exchanges_untagged_witness :
  let act := mkActivity "ThisIsFU1"
               [mkExchange "heat" 5 (Some "energy"%string);
                mkExchange "water" 2 None;
                mkExchange "steam" 7 (Some "energy"%string)] in
  let self := mkLCA true ∅ None None None None None None (Some (ByList ∅))
                    None (Some act) in
  exists lists,
    aggregate_exchanges Sample.lca_score (KTuple Sample.global_warming) self
    = (Raised KeyError, set_grouped (ByList lists) self) /\
    default [] (lists !! "energy"%string) = [5].
Proof.
  intros act self.
  destruct (aggregate_exchanges_untagged Sample.lca_score
              (KTuple Sample.global_warming) self act
              [mkExchange "heat" 5 (Some "energy"%string)]
              [mkExchange "steam" 7 (Some "energy"%string)]
              (mkExchange "water" 2 None))
    as (lists & Hrun & Hl); try reflexivity.
  - repeat constructor; eexists; reflexivity.
  - eexists; reflexivity.
  - exists lists. split; [exact Hrun|]. rewrite Hl. reflexivity.
Defined.

(** ** The loop body of [analyze_lca] *)

(** X12: the body of the [while] loop cannot complete: its first statement
    raises, AttributeError before any [calc_lca], KeyError when the key is
    not a functional-unit name of [top_processes_dict], TypeError otherwise
    (a dictionary is subscripted with a slice); nothing is assigned. *)
Theorem loop_body_raises (lca_score : ImpactEngine) (k : PyKey) (n : nat)
        (self : biorefinery_LCA) :
  exists e,
    loop_body lca_score k n self = (Raised e, self) /\
    e = match top_processes_dict self with
        | None => AttributeError
        | Some tpd =>
            match k with
            | KStr s => match tpd !! s with
                        | Some _ => TypeError
                        | None => KeyError
                        end
            | KTuple _ => KeyError
            end
        end.
Proof.
  unfold loop_body, bind, get, from_option, getitem, from_option, slice_of_dict.
  destruct (top_processes_dict self) as [tpd|]; simpl; [|eauto].
  destruct k as [s|t]; simpl; [|eauto].
  destruct (tpd !! s); simpl; eauto.
Qed.

(** ** [gen_report] after [analyze_lca] *)

(** X13: [gen_report] called after [analyze_lca] passes its guard exactly
    when the flag was already set by an earlier call or the key given to
    [analyze_lca] is a functional-unit name with results: a failed
    [analyze_lca] does not clear the flag. *)
Theorem gen_report_after_analyze (lca_score : ImpactEngine) (fuel : nat)
        (k : PyKey) (n : nat) (self : biorefinery_LCA) :
  fst (gen_report (snd (analyze_lca lca_score fuel k n self))) = Returned tt
  <-> analysis_done self = true \/ key_in k (LCA_results_dict self) = true.
Proof.
  destruct (key_in k (LCA_results_dict self)) eqn:E.
  - rewrite (analyze_lca_assert_passes lca_score fuel k n self E). simpl.
    split; auto.
  - rewrite (analyze_lca_assert_fails lca_score fuel k n self E).
    unfold gen_report, bind, get; simpl.
    destruct (analysis_done self); simpl; split; auto.
    + intros H; discriminate H.
    + intros [H | H]; discriminate H.
Qed.

(** ** [calc_lca] *)

Lemma default_lookup {V : Type} (o : option (gmap Method V)) (m : Method) :
  default ∅ o !! m = o ≫= (.!! m).
Proof. destruct o; simpl; [reflexivity | apply lookup_empty]. Qed.

Section CalcLca.
Variable lca_score : ImpactEngine.
Variable annotated_top_processes : string -> Z -> PyKey -> list (string * Z).
Variable db : list Activity.
Variable vanillin_production : gmap string Z.
Variable methods : list Method.
#[local] Open Scope py_scope.

(** The loop over the methods, for one functional unit. *)
Lemma calc_methods_loop (FU_name c : string) (amount_FU : Z) (ms : list Method) :
  (forall m, m ∈ ms -> is_Some (lca_score c amount_FU (KTuple m))) ->
  forall self, exists self',
    for_each ms (fun method =>
      score <- from_option EngineError
                 (lca_score c amount_FU (KTuple method)) ;;
      modify (fun s =>
        set_LCA_results_dict (store FU_name method score (LCA_results_dict s)) s) ;;;
      modify (fun s =>
        set_top_processes_dict
          (store FU_name method
                 (annotated_top_processes c amount_FU (KTuple method))
                 (default ∅ (top_processes_dict s))) s)) self
    = (Returned tt, self') /\
    analysis_done self' = analysis_done self /\
    calc_done self' = calc_done self /\
    (forall name, name <> FU_name ->
                  LCA_results_dict self' !! name = LCA_results_dict self !! name) /\
    (is_Some (LCA_results_dict self' !! FU_name) <->
     is_Some (LCA_results_dict self !! FU_name) \/ ms <> []) /\
    (forall m, LCA_results_dict self' !! FU_name ≫= (.!! m)
               = if decide (m ∈ ms) then lca_score c amount_FU (KTuple m)
                 else LCA_results_dict self !! FU_name ≫= (.!! m)).
Proof.
  induction ms as [|m0 ms IH]; intros Hms self.
  - exists self. split; [reflexivity|]. split; [reflexivity|].
    split; [reflexivity|]. split; [reflexivity|]. split.
    + split; [auto | intros [H | H]; [exact H | congruence]].
    + intros m. destruct (decide (m ∈ [])) as [Hd|]; [inversion Hd | reflexivity].
  - destruct (Hms m0 (list_elem_of_here _ _)) as [score Hscore].
    set (self1 :=
      set_top_processes_dict
        (store FU_name m0 (annotated_top_processes c amount_FU (KTuple m0))
               (default ∅ (top_processes_dict self)))
        (set_LCA_results_dict
           (store FU_name m0 score (LCA_results_dict self)) self)).
    destruct (IH (fun m Hm => Hms m (list_elem_of_further _ _ _ Hm)) self1)
      as (self' & Hrun & Hdone & Hcalc & Hother & Hsome & Hval).
    exists self'. split; [|split; [|split; [|split; [|split]]]].
    + simpl. unfold bind at 1. unfold bind at 1. rewrite Hscore. simpl.
      exact Hrun.
    + rewrite Hdone. reflexivity.
    + rewrite Hcalc. reflexivity.
    + intros name Hne. rewrite (Hother name Hne). simpl. unfold store.
      rewrite lookup_insert_ne by congruence. reflexivity.
    + rewrite Hsome. simpl. unfold store. rewrite lookup_insert_eq.
      split; [intros _; right; discriminate | intros _; left; eauto].
    + intros m. rewrite Hval. simpl. unfold store. rewrite lookup_insert_eq.
      simpl. destruct (decide (m ∈ ms)) as [Hin | Hnin].
      * rewrite decide_True by (apply list_elem_of_further, Hin). reflexivity.
      * destruct (decide (m = m0)) as [-> | Hne].
        -- rewrite decide_True by (apply list_elem_of_here).
           rewrite lookup_insert_eq. symmetry. exact Hscore.
        -- rewrite decide_False
             by (intros H; apply elem_of_cons in H; tauto).
           rewrite lookup_insert_ne by congruence. apply default_lookup.
Qed.

(** One functional unit. *)
Lemma calc_one_ready (fu : string * string) (self : biorefinery_LCA) :
  fu_ready lca_score db vanillin_production methods fu ->
  exists self',
    calc_one lca_score annotated_top_processes db vanillin_production methods
             fu self = (Returned tt, self') /\
    analysis_done self' = analysis_done self /\
    calc_done self' = calc_done self /\
    (forall name, name <> fst fu ->
                  LCA_results_dict self' !! name = LCA_results_dict self !! name) /\
    (is_Some (LCA_results_dict self' !! fst fu) <->
     is_Some (LCA_results_dict self !! fst fu) \/ methods <> []) /\
    (forall m, LCA_results_dict self' !! fst fu ≫= (.!! m)
               = if decide (m ∈ methods)
                 then impact_result lca_score db vanillin_production fu m
                 else LCA_results_dict self !! fst fu ≫= (.!! m)).
Proof.
  intros (act & amount_FU & Hact & Hamount & Hms).
  destruct fu as [FU_name FU_code]. simpl in *.
  destruct (calc_methods_loop FU_name (code act) amount_FU methods Hms self)
    as (self' & Hrun & Hdone & Hcalc & Hother & Hsome & Hval).
  exists self'. split; [|split; [|split; [|split; [|split]]]]; auto.
  - unfold calc_one, bind at 1. rewrite Hact. simpl.
    unfold bind at 1. rewrite Hamount. simpl. exact Hrun.
  - intros m. rewrite Hval. unfold impact_result. simpl.
    rewrite Hact, Hamount. reflexivity.
Qed.

(** The loop over the functional units. *)
Lemma calc_units_loop (codes : list (string * string)) :
  NoDup (map fst codes) ->
  (forall fu, fu ∈ codes ->
              fu_ready lca_score db vanillin_production methods fu) ->
  forall self, exists self',
    for_each codes (calc_one lca_score annotated_top_processes db
                             vanillin_production methods) self
    = (Returned tt, self') /\
    analysis_done self' = analysis_done self /\
    calc_done self' = calc_done self /\
    (forall name, name ∉ map fst codes ->
                  LCA_results_dict self' !! name = LCA_results_dict self !! name) /\
    (forall fu, fu ∈ codes ->
       (is_Some (LCA_results_dict self' !! fst fu) <->
        is_Some (LCA_results_dict self !! fst fu) \/ methods <> []) /\
       forall m, LCA_results_dict self' !! fst fu ≫= (.!! m)
                 = if decide (m ∈ methods)
                   then impact_result lca_score db vanillin_production fu m
                   else LCA_results_dict self !! fst fu ≫= (.!! m)).
Proof.
  induction codes as [|fu0 codes IH]; intros Hnd Hready self.
  - exists self. split; [reflexivity|]. split; [reflexivity|].
    split; [reflexivity|]. split; [reflexivity|].
    intros fu Hfu. inversion Hfu.
  - simpl in Hnd. apply NoDup_cons in Hnd. destruct Hnd as [Hfresh Hnd].
    destruct (calc_one_ready fu0 self (Hready fu0 (list_elem_of_here _ _)))
      as (self1 & Hrun1 & Hdone1 & Hcalc1 & Hother1 & Hsome1 & Hval1).
    destruct (IH Hnd (fun fu Hfu => Hready fu (list_elem_of_further _ _ _ Hfu))
                 self1)
      as (self' & Hrun & Hdone & Hcalc & Hother & Hin).
    exists self'. split; [|split; [|split; [|split]]].
    + simpl. unfold bind at 1. rewrite Hrun1. exact Hrun.
    + congruence.
    + congruence.
    + intros name Hname. simpl in Hname.
      rewrite not_elem_of_cons in Hname. destruct Hname as [Hne Hname].
      rewrite (Hother name Hname). apply Hother1. exact Hne.
    + intros fu Hfu. apply elem_of_cons in Hfu. destruct Hfu as [-> | Hfu].
      * rewrite (Hother (fst fu0) Hfresh). split; [exact Hsome1 | exact Hval1].
      * destruct (Hin fu Hfu) as [Hsome Hval].
        assert (Hne : fst fu <> fst fu0).
        { intros E. apply Hfresh. rewrite <- E.
          apply list_elem_of_In, in_map, list_elem_of_In, Hfu. }
        rewrite <- (Hother1 (fst fu) Hne). split; [exact Hsome | exact Hval].
Qed.
End CalcLca.

(** The state in which the loop over the functional units starts. *)
Lemma calc_lca_unfold (lca_score : ImpactEngine)
      (annotated_top_processes : string -> Z -> PyKey -> list (string * Z))
      (methods : list Method) (db : list Activity)
      (codes : list (string * string)) (vanillin_production : gmap string Z)
      (flag : bool) (self : biorefinery_LCA) :
  calc_lca lca_score annotated_top_processes methods db codes
           vanillin_production flag self
  = match for_each codes (calc_one lca_score annotated_top_processes db
                                   vanillin_production methods)
            (set_top_processes_dict ∅
               (set_LCA_results_dict ∅ (set_calc_args codes methods flag self)))
    with
    | (Returned _, self') => (Returned tt, set_calc_done true self')
    | (Raised e, self') => (Raised e, self')
    end.
Proof. reflexivity. Qed.

(** X14: when the names are distinct and every functional unit is found and
    scored, [calc_lca] returns with [calc_done] set; whatever the object
    held before, the results then hold a key for exactly the names given
    (none at all when no method is given) and, under each, exactly the
    methods given with the engine's score. *)
Theorem calc_lca_results (lca_score : ImpactEngine)
        (annotated_top_processes : string -> Z -> PyKey -> list (string * Z))
        (methods : list Method) (db : list Activity)
        (codes : list (string * string)) (vanillin_production : gmap string Z)
        (flag : bool) (self : biorefinery_LCA) :
  NoDup (map fst codes) ->
  (forall fu, fu ∈ codes ->
              fu_ready lca_score db vanillin_production methods fu) ->
  exists self',
    calc_lca lca_score annotated_top_processes methods db codes
             vanillin_production flag self = (Returned tt, self') /\
    calc_done self' = Some true /\
    analysis_done self' = analysis_done self /\
    (forall name, is_Some (LCA_results_dict self' !! name) <->
                  name ∈ map fst codes /\ methods <> []) /\
    (forall fu m, fu ∈ codes ->
       LCA_results_dict self' !! fst fu ≫= (.!! m)
       = if decide (m ∈ methods)
         then impact_result lca_score db vanillin_production fu m
         else None).
Proof.
  intros Hnd Hready. rewrite calc_lca_unfold.
  destruct (calc_units_loop lca_score annotated_top_processes db
              vanillin_production methods codes Hnd Hready
              (set_top_processes_dict ∅
                 (set_LCA_results_dict ∅ (set_calc_args codes methods flag self))))
    as (self1 & Hrun & Hdone & _ & Hother & Hin).
  rewrite Hrun. exists (set_calc_done true self1).
  split; [reflexivity|]. split; [reflexivity|]. split; [exact Hdone|].
  simpl in *. split.
  - intros name. destruct (decide (name ∈ map fst codes)) as [Hname | Hname].
    + apply list_elem_of_In, in_map_iff in Hname.
      destruct Hname as (fu & <- & Hfu). apply list_elem_of_In in Hfu.
      destruct (Hin fu Hfu) as [Hsome _]. rewrite Hsome, lookup_empty.
      split.
      * intros [[x Hx] | H]; [discriminate Hx|]. split; [|exact H].
        apply list_elem_of_In, in_map, list_elem_of_In, Hfu.
      * intros [_ H]. right. exact H.
    + rewrite (Hother name Hname), lookup_empty. split.
      * intros [x Hx]. discriminate Hx.
      * intros [H _]. contradiction.
  - intros fu m Hfu. destruct (Hin fu Hfu) as [_ Hval].
    rewrite Hval, lookup_empty. reflexivity.
Qed.

Lemma calc_lca_results_witness :
  NoDup (map fst Sample.codes) /\
  exists self',
    calc_lca Sample.lca_score Sample.annotated_top_processes
             [Sample.global_warming] Sample.db Sample.codes Sample.production
             false init = (Returned tt, self') /\
    calc_done self' = Some true /\
    LCA_results_dict self' !! Sample.fu_name ≫= (.!! Sample.global_warming)
    = Some 1.
Proof.
  assert (Hnd : NoDup (map fst Sample.codes)).
  { repeat constructor. apply not_elem_of_nil. }
  assert (Hready : forall fu, fu ∈ Sample.codes ->
            fu_ready Sample.lca_score Sample.db Sample.production
                     [Sample.global_warming] fu).
  { intros fu Hfu. apply list_elem_of_singleton in Hfu. subst fu.
    exists Sample.fu_activity, 1. repeat split. intros m _. eexists. reflexivity. }
  split; [exact Hnd|].
  destruct (calc_lca_results Sample.lca_score Sample.annotated_top_processes
              [Sample.global_warming] Sample.db Sample.codes Sample.production
              false init Hnd Hready)
    as (self' & Hrun & Hdone & _ & _ & Hval).
  exists self'. split; [exact Hrun|]. split; [exact Hdone|].
  specialize (Hval (Sample.fu_name, "ThisIsFU1"%string) Sample.global_warming
                   (list_elem_of_here _ _)).
  cbn [fst] in Hval. rewrite Hval. reflexivity.
Defined.

(** X15: the first functional unit whose code is not in the database stops
    [calc_lca] with an IndexError, and the first whose name has no production
    amount with a KeyError; [calc_done] keeps the value passed in, and the
    scores of the units before it stay in the results. *)
Theorem calc_lca_aborts (lca_score : ImpactEngine)
        (annotated_top_processes : string -> Z -> PyKey -> list (string * Z))
        (methods : list Method) (db : list Activity)
        (pre post : list (string * string)) (fu : string * string)
        (vanillin_production : gmap string Z)
        (flag : bool) (self : biorefinery_LCA) :
  NoDup (map fst pre) ->
  (forall fu', fu' ∈ pre ->
               fu_ready lca_score db vanillin_production methods fu') ->
  head (List.filter (fun act => String.eqb (code act) (snd fu)) db) = None \/
  vanillin_production !! fst fu = None ->
  exists self',
    calc_lca lca_score annotated_top_processes methods db (pre ++ fu :: post)
             vanillin_production flag self
    = (Raised
         match head (List.filter (fun act => String.eqb (code act) (snd fu)) db)
         with
         | None => IndexError
         | Some _ => KeyError
         end, self') /\
    calc_done self' = Some flag /\
    (forall fu' m, fu' ∈ pre -> m ∈ methods ->
       LCA_results_dict self' !! fst fu' ≫= (.!! m)
       = impact_result lca_score db vanillin_production fu' m).
Proof.
  intros Hnd Hready Hfail. rewrite calc_lca_unfold.
  destruct (calc_units_loop lca_score annotated_top_processes db
              vanillin_production methods pre Hnd Hready
              (set_top_processes_dict ∅
                 (set_LCA_results_dict ∅
                    (set_calc_args (pre ++ fu :: post) methods flag self))))
    as (self1 & Hrun & _ & Hcalc & _ & Hin).
  rewrite (for_each_app _ _ _ _ _ Hrun). exists self1.
  split; [|split].
  - simpl. unfold bind at 1. unfold calc_one. destruct fu as [FU_name FU_code].
    simpl in *. unfold bind at 1.
    destruct (head (List.filter _ db)) as [act|]; simpl; [|reflexivity].
    destruct Hfail as [Hfail | Hfail]; [discriminate Hfail|].
    unfold bind at 1. rewrite Hfail. reflexivity.
  - rewrite Hcalc. reflexivity.
  - intros fu' m Hfu' Hm. destruct (Hin fu' Hfu') as [_ Hval].
    rewrite Hval, decide_True by exact Hm. reflexivity.
Qed.

Lemma calc_lca_aborts_witness :
  let fu := ("Vanillin 2% production"%string, "ThisIsFU2"%string) in
  head (List.filter (fun act => String.eqb (code act) (snd fu)) Sample.db) = None /\
  exists self',
    calc_lca Sample.lca_score Sample.annotated_top_processes
             [Sample.global_warming] Sample.db (Sample.codes ++ [fu])
             Sample.production false init = (Raised IndexError, self') /\
    calc_done self' = Some false /\
    LCA_results_dict self' !! Sample.fu_name ≫= (.!! Sample.global_warming)
    = Some 1.
Proof.
  intros fu.
  assert (Hnd : NoDup (map fst Sample.codes)).
  { repeat constructor. apply not_elem_of_nil. }
  assert (Hready : forall fu, fu ∈ Sample.codes ->
            fu_ready Sample.lca_score Sample.db Sample.production
                     [Sample.global_warming] fu).
  { intros fu' Hfu. apply list_elem_of_singleton in Hfu. subst fu'.
    exists Sample.fu_activity, 1. repeat split. intros m _. eexists. reflexivity. }
  assert (Hmiss : head (List.filter (fun act => String.eqb (code act) (snd fu))
                                    Sample.db) = None) by reflexivity.
  split; [exact Hmiss|].
  destruct (calc_lca_aborts Sample.lca_score Sample.annotated_top_processes
              [Sample.global_warming] Sample.db Sample.codes [] fu
              Sample.production false init Hnd Hready (or_introl Hmiss))
    as (self' & Hrun & Hdone & Hval).
  exists self'. split; [exact Hrun|]. split; [exact Hdone|].
  specialize (Hval (Sample.fu_name, "ThisIsFU1"%string) Sample.global_warming
                   (list_elem_of_here _ _) (list_elem_of_here _ _)).
  cbn [fst] in Hval. rewrite Hval. reflexivity.
Defined.

(** X16: after a [calc_lca] that returned, [analyze_lca] passes its
    assertion exactly for the name of one of the functional units, and only
    if at least one method was given: it raises for every method, the
    evaluated ones included. *)
Theorem analyze_after_calc (lca_score : ImpactEngine)
        (annotated_top_processes : string -> Z -> PyKey -> list (string * Z))
        (methods : list Method) (db : list Activity)
        (codes : list (string * string)) (vanillin_production : gmap string Z)
        (flag : bool) (self : biorefinery_LCA)
        (fuel : nat) (k : PyKey) (n : nat) :
  NoDup (map fst codes) ->
  (forall fu, fu ∈ codes ->
              fu_ready lca_score db vanillin_production methods fu) ->
  let self' := snd (calc_lca lca_score annotated_top_processes methods db codes
                             vanillin_production flag self) in
  fst (analyze_lca lca_score fuel k n self') = Returned tt <->
  exists name, k = KStr name /\ name ∈ map fst codes /\ methods <> [].
Proof.
  intros Hnd Hready self'.
  assert (Hkeys : forall name, is_Some (LCA_results_dict self' !! name) <->
                               name ∈ map fst codes /\ methods <> []).
  { unfold self'. rewrite calc_lca_unfold.
    destruct (calc_units_loop lca_score annotated_top_processes db
                vanillin_production methods codes Hnd Hready
                (set_top_processes_dict ∅
                   (set_LCA_results_dict ∅
                      (set_calc_args codes methods flag self))))
      as (self1 & Hrun & _ & _ & Hother & Hin).
    rewrite Hrun. simpl in *. intros name.
    destruct (decide (name ∈ map fst codes)) as [Hname | Hname].
    - apply list_elem_of_In, in_map_iff in Hname.
      destruct Hname as (fu & <- & Hfu). apply list_elem_of_In in Hfu.
      destruct (Hin fu Hfu) as [Hsome _]. rewrite Hsome, lookup_empty. split.
      + intros [[x Hx] | H]; [discriminate Hx|]. split; [|exact H].
        apply list_elem_of_In, in_map, list_elem_of_In, Hfu.
      + intros [_ H]. right. exact H.
    - rewrite (Hother name Hname), lookup_empty. split.
      + intros [x Hx]. discriminate Hx.
      + intros [H _]. contradiction. }
  destruct (key_in k (LCA_results_dict self')) eqn:E.
  - rewrite (analyze_lca_assert_passes lca_score fuel k n self' E). simpl.
    split; [intros _ | reflexivity].
    destruct k as [name|t]; simpl in E; [|discriminate E].
    apply bool_decide_eq_true in E. exists name. split; [reflexivity|].
    apply Hkeys, E.
  - rewrite (analyze_lca_assert_fails lca_score fuel k n self' E). simpl.
    split; [intros H; discriminate H|]. intros (name & -> & Hname).
    simpl in E. apply bool_decide_eq_false in E. exfalso. apply E, Hkeys, Hname.
Qed.

Lemma analyze_after_calc_witness :
  NoDup (map fst Sample.codes) /\
  fst (analyze_lca Sample.lca_score 1 (KStr Sample.fu_name) 5
         (snd (calc_lca Sample.lca_score Sample.annotated_top_processes
                        [Sample.global_warming] Sample.db Sample.codes
                        Sample.production false init)))
  = Returned tt.
Proof.
  assert (Hnd : NoDup (map fst Sample.codes)).
  { repeat constructor. apply not_elem_of_nil. }
  assert (Hready : forall fu, fu ∈ Sample.codes ->
            fu_ready Sample.lca_score Sample.db Sample.production
                     [Sample.global_warming] fu).
  { intros fu Hfu. apply list_elem_of_singleton in Hfu. subst fu.
    exists Sample.fu_activity, 1. repeat split. intros m _. eexists. reflexivity. }
  split; [exact Hnd|].
  apply (analyze_after_calc Sample.lca_score Sample.annotated_top_processes
           [Sample.global_warming] Sample.db Sample.codes Sample.production
           false init 1 (KStr Sample.fu_name) 5 Hnd Hready).
  exists Sample.fu_name. split; [reflexivity|]. split; [|discriminate].
  apply list_elem_of_here.
Defined.

(** ** [gen_fig] *)

Lemma set_column_fresh (name : string) (v : Z) (df : list (string * Z)) :
  ~ In name (map fst df) -> set_column name v df = df ++ [(name, v)].
Proof.
  induction df as [|[c x] df IH]; simpl; intros H; [reflexivity|].
  destruct (String.eqb c name) eqn:E.
  - apply String.eqb_eq in E. tauto.
  - rewrite IH by tauto. reflexivity.
Qed.

Lemma set_column_present (name : string) (v : Z) (df : list (string * Z)) :
  In name (map fst df) ->
  map fst (set_column name v df) = map fst df /\
  In (name, v) (set_column name v df).
Proof.
  induction df as [|[c x] df IH]; simpl; intros H; [destruct H|].
  destruct (String.eqb c name) eqn:E.
  - apply String.eqb_eq in E. subst c. simpl. auto.
  - apply String.eqb_neq in E. destruct H as [H | H]; [contradiction|].
    destruct (IH H) as [IH1 IH2]. simpl. rewrite IH1. auto.
Qed.





(** * The sweep of functional units *)

Import stdpp.pretty Notebook.

Lemma list_ascii_of_string_app (s t : string) :
  String.list_ascii_of_string (s +:+ t)
  = String.list_ascii_of_string s ++ String.list_ascii_of_string t.
Proof. induction s as [|a s IH]; simpl; [reflexivity | rewrite IH; reflexivity]. Qed.

Lemma string_app_inv_tail (s1 s2 t : string) :
  s1 +:+ t = s2 +:+ t -> s1 = s2.
Proof.
  intros H. apply (f_equal String.list_ascii_of_string) in H.
  rewrite !list_ascii_of_string_app in H. apply app_inv_tail in H.
  rewrite <- (String.string_of_list_ascii_of_string s1),
          <- (String.string_of_list_ascii_of_string s2), H.
  reflexivity.
Qed.

Lemma range_down_nth (start j : nat) :
  (j < start)%nat -> nth_error (range_down start) j = Some (start - j)%nat.
Proof.
  intros Hj. unfold range_down.
  rewrite nth_error_rev, length_seq.
  destruct (Nat.ltb_spec j start) as [_ | H]; [|lia].
  rewrite nth_error_seq. destruct (Nat.ltb_spec (start - S j) start); [|lia].
  f_equal. lia.
Qed.

(** X19: the sweep from [start]% down to 1% gives [start] functional units,
    in decreasing order of share, with pairwise distinct names and pairwise
    distinct codes (so the dictionary built from them loses none), one for
    each share from 1 to [start]. *)
Theorem FU_codes_from_spec (start : nat) :
  length (FU_codes_from start) = start /\
  NoDup (map fst (FU_codes_from start)) /\
  NoDup (map snd (FU_codes_from start)) /\
  (forall j, (j < start)%nat ->
     nth_error (FU_codes_from start) j
     = Some ("Vanillin " +:+ pretty (start - j)%nat +:+ "% production",
             "ThisIsFU" +:+ pretty (start - j)%nat)) /\
  (forall name code,
     In (name, code) (FU_codes_from start) <->
     exists i, (1 <= i <= start)%nat /\
               name = "Vanillin " +:+ pretty i +:+ "% production" /\
               code = "ThisIsFU" +:+ pretty i).
Proof.
  unfold FU_codes_from.
  assert (Hnd : List.NoDup (range_down start)).
  { unfold range_down. apply NoDup_rev, seq_NoDup. }
  assert (Hin : forall i, In i (range_down start) <-> (1 <= i <= start)%nat).
  { intros i. unfold range_down. rewrite <- in_rev, in_seq. lia. }
  split; [|split; [|split; [|split]]].
  - rewrite length_map. unfold range_down. rewrite length_rev, length_seq.
    reflexivity.
  - rewrite map_map. simpl. apply NoDup_ListNoDup.
    apply Finite.Injective_map_NoDup; [|exact Hnd].
    intros i j H. apply (inj (String.app "Vanillin ")) in H.
    apply string_app_inv_tail in H. apply (inj pretty) in H. exact H.
  - rewrite map_map. simpl. apply NoDup_ListNoDup.
    apply Finite.Injective_map_NoDup; [|exact Hnd].
    intros i j H. apply (inj (String.app "ThisIsFU")) in H.
    apply (inj pretty) in H. exact H.
  - intros j Hj. rewrite nth_error_map, (range_down_nth start j Hj). reflexivity.
  - intros name code. rewrite in_map_iff. split.
    + intros (i & E & Hi). inversion E; subst. exists i. rewrite <- Hin. auto.
    + intros (i & Hi & -> & ->). exists i. rewrite Hin. auto.
Qed.
